(** * MPd: the batch download handler of [src/main.py]

    A shallow embedding of [owner_only] and [handle_document] and of the
    Python and Telegram operations they call, with the properties of the
    batch run stated over the trace of calls the handler makes.

    Python [str] values are modelled by [string], a character beyond ASCII
    being carried as its UTF-8 bytes: one code point is a byte that is not a
    continuation byte, followed by its continuation bytes. *)

From Stdlib Require Import Ascii String.
From stdpp Require Import gmap strings list fin_maps pretty.

(** ** Python string operations *)

Module PyStr.

Definition NL : string := String "010"%char EmptyString.

Definition chars (s : string) : list ascii := list_ascii_of_string s.

(** [str.lower]. The letters A to Z are mapped; the bytes of a character
    beyond ASCII stay as they are. Python lowers other letters too, and none
    of them to a character of ".mpd", ".m3u8" or ".txt", the only suffixes
    the handler looks for in a lower-cased string. *)
Definition lower_char (c : ascii) : ascii :=
  let n := nat_of_ascii c in
  if ((65 <=? n) && (n <=? 90))%nat then ascii_of_nat (n + 32) else c.

Fixpoint lower (s : string) : string :=
  match s with
  | EmptyString => EmptyString
  | String c s' => String (lower_char c) (lower s')
  end.

(** A continuation byte of UTF-8: 10xxxxxx. *)
Definition continuation (c : ascii) : bool :=
  let n := nat_of_ascii c in ((128 <=? n) && (n <? 192))%nat.

Definition starts_continuation (ch : string) : bool :=
  match ch with
  | EmptyString => false
  | String c _ => continuation c
  end.

(** The code points of a string, each with its bytes: what iterating over
    a [str] gives. *)
Fixpoint code_points (s : string) : list string :=
  match s with
  | EmptyString => []
  | String c s' =>
      match code_points s' with
      | ch :: rest =>
          if starts_continuation ch then String c ch :: rest
          else String c EmptyString :: ch :: rest
      | [] => [String c EmptyString]
      end
  end.

(** ["".join(points)] *)
Definition join (points : list string) : string :=
  fold_right String.append EmptyString points.

Definition utf8 (bytes : list nat) : string :=
  string_of_list_ascii (ascii_of_nat <$> bytes).

(** The characters for which [str.isspace] holds, which are those
    [str.strip()] removes: U+0009 to U+000D, U+001C to U+0020, U+0085,
    U+00A0, U+1680, U+2000 to U+200A, U+2028, U+2029, U+202F, U+205F and
    U+3000. *)
Definition whitespace : list string :=
  utf8 <$>
    [ [9]; [10]; [11]; [12]; [13]; [28]; [29]; [30]; [31]; [32];
      [194; 133]; [194; 160];
      [225; 154; 128];
      [226; 128; 128]; [226; 128; 129]; [226; 128; 130]; [226; 128; 131];
      [226; 128; 132]; [226; 128; 133]; [226; 128; 134]; [226; 128; 135];
      [226; 128; 136]; [226; 128; 137]; [226; 128; 138];
      [226; 128; 168]; [226; 128; 169]; [226; 128; 175];
      [226; 129; 159];
      [227; 128; 128] ]%nat.

(** [ch.isspace()] for one character. *)
Definition isspace (ch : string) : bool := bool_decide (ch ∈ whitespace).

Fixpoint lstrip_points (points : list string) : list string :=
  match points with
  | [] => []
  | ch :: points' => if isspace ch then lstrip_points points' else points
  end.

Definition strip_points (points : list string) : list string :=
  rev (lstrip_points (rev (lstrip_points points))).

(** [str.strip()] with no argument. *)
Definition strip (s : string) : string := join (strip_points (code_points s)).

(** [s.startswith(prefix)] *)
Fixpoint startswith (s prefix : string) {struct prefix} : bool :=
  match prefix with
  | EmptyString => true
  | String a prefix' =>
      match s with
      | EmptyString => false
      | String b s' => Ascii.eqb a b && startswith s' prefix'
      end
  end.

(** [s.endswith(suffix)]: the last [len(suffix)] characters of [s] are
    compared with [suffix]. *)
Definition endswith (s suffix : string) : bool :=
  let n := String.length s in
  let k := String.length suffix in
  (k <=? n)%nat && String.eqb (String.substring (n - k) k s) suffix.

(** [s.endswith((a, b, ...))]: any of the suffixes. *)
Definition endswith_any (s : string) (suffixes : list string) : bool :=
  existsb (endswith s) suffixes.

(** Text mode reading translates "\r\n" and a lone "\r" to "\n";
    [readlines] then cuts after every "\n" and keeps it. [cur] is the
    line being read, newest character first. *)
Fixpoint readlines_go (cur : string) (s : string) : list string :=
  match s with
  | EmptyString =>
      match cur with
      | EmptyString => []
      | _ => [String.rev cur]
      end
  | String c s' =>
      if Ascii.eqb c "010" then
        String.rev (String "010" cur) :: readlines_go EmptyString s'
      else if Ascii.eqb c "013" then
        match s' with
        | String c' s'' =>
            if Ascii.eqb c' "010"
            then String.rev (String "010" cur) :: readlines_go EmptyString s''
            else String.rev (String "010" cur) :: readlines_go EmptyString s'
        | EmptyString => [String.rev (String "010" cur)]
        end
      else readlines_go (String c cur) s'
  end.

Definition readlines (content : string) : list string :=
  readlines_go EmptyString content.

(** [os.path.join(a, b)] for a relative [b] and an [a] without a
    trailing separator, which is the only use the handler makes of it. *)
Definition path_join (a b : string) : string := a +:+ "/" +:+ b.

End PyStr.

Import PyStr.

(** ** Exceptions, calls and the trace *)

(** The exception classes the handler can meet. All of them derive from
    [Exception]; only [CalledProcessError] is named by an [except] clause. *)
Inductive exn_class :=
| CalledProcessError
| OSError
| TelegramError
| UnicodeDecodeError
| AttributeError.

Global Instance exn_class_eq_dec : EqDecision exn_class.
Proof. solve_decision. Defined.

(** An exception: its class and [str(e)]. *)
Record exn := Exn { exn_cls : exn_class; exn_str : string }.

Global Instance exn_eq_dec : EqDecision exn.
Proof. solve_decision. Defined.

(** A message handle: the [Message] object [reply_text] returns. *)
Definition handle := nat.

(** The calls the handler makes on its collaborators. *)
Inductive call :=
| ReplyText (text : string) (parse_mode : option string)
| GetFile (file_id : string)
| DownloadToDrive (file_id path : string)
| Mkdtemp (dir : string)   (* [dir]: the name it returns *)
| RmTree (dir : string)
| ReadLines (path : string)
| SendChatAction (chat_id : Z) (action : string)
| SubprocessRun (cmd : list string)
| OpenRb (path : string)
| SendVideo (chat_id : Z) (path caption : string) (supports_streaming : bool)
| DeleteMessage (h : handle).

(** One entry of the trace: a text message was sent and got handle [h], a
    call returned, or a call raised. *)
Inductive event :=
| Sent (h : handle) (text : string) (parse_mode : option string)
| Did (c : call)
| Failed (c : call) (x : exn).

(** What running a command gives: the program could not be started, or it
    ran and exited with [code]; [output] is what it left at its output
    path, if anything. *)
Inductive proc_result :=
| NotLaunched (detail : string)
| Exited (code : Z) (output : option string).

Inductive node := Dir | File (content : string).

(** The world outside the handler. Every answer may depend on the calls
    made so far ([list event], oldest first). *)
Record World := {
  (** the Bot API call fails with this message *)
  telegram_error : list event → call → option string;
  (** the bytes Telegram holds for a file id *)
  document_bytes : string → string;
  (** the bytes are not UTF-8: the decoder's message *)
  decode_error : string → option string;
  (** the directory name [tempfile] picks *)
  mkdtemp_name : list event → string;
  (** what the program named by the command does with it *)
  tool : list event → list string → proc_result;
}.

(** [a] holds a NUL character. *)
Definition has_nul (a : string) : bool := existsb (Ascii.eqb "000") (chars a).

(** What running a command gives. [subprocess.run] refuses a command line
    with a NUL character in one of its words before it starts anything
    ("embedded null byte"); any other command line is handed to the
    program. *)
Definition process (w : World) (past : list event) (cmd : list string) : proc_result :=
  if existsb has_nul cmd then NotLaunched "embedded null byte" else tool w past cmd.

(** The state threaded through the handler: the trace, newest event first,
    and the file system. *)
Record State := {
  st_trace : list event;
  st_fs : gmap string node;
}.

Definition history (s : State) : list event := rev (st_trace s).

Definition log (e : event) (s : State) : State :=
  {| st_trace := e :: st_trace s; st_fs := st_fs s |}.

Definition set_fs (fs : gmap string node) (s : State) : State :=
  {| st_trace := st_trace s; st_fs := fs |}.

(** ** The monad of the handler: state and exceptions *)

Inductive res (A : Type) :=
| Ret (a : A)
| Raise (x : exn).
Global Arguments Ret {A} a.
Global Arguments Raise {A} x.

Definition M (A : Type) : Type := State → res A * State.

Global Instance M_ret : MRet M := λ A a s, (Ret a, s).

Global Instance M_bind : MBind M := λ A B f m s,
  match m s with
  | (Ret a, s') => f a s'
  | (Raise x, s') => (Raise x, s')
  end.

Definition raise {A} (x : exn) : M A := λ s, (Raise x, s).

(** [try: body  except <classes>: handler]. An exception raised by the
    handler itself is not caught. *)
Definition try_except {A} (body : M A) (catches : exn → bool)
    (handler : exn → M A) : M A := λ s,
  match body s with
  | (Ret a, s') => (Ret a, s')
  | (Raise x, s') => if catches x then handler x s' else (Raise x, s')
  end.

Definition isinstance (cls : exn_class) (x : exn) : bool :=
  bool_decide (exn_cls x = cls).

(** Every modelled class derives from [Exception]. *)
Definition isinstance_Exception (x : exn) : bool := true.

(** [p] lies under the directory [dir]. *)
Definition under (dir p : string) : bool := startswith p (dir +:+ "/").

Definition outside (dir : string) (entry : string * node) : Prop :=
  entry.1 ≠ dir ∧ under dir entry.1 = false.

Global Instance outside_dec dir entry : Decision (outside dir entry).
Proof. unfold outside. apply _. Defined.

(** [shutil.rmtree(dir)]: the directory and everything under it go. *)
Definition rmtree (dir : string) (fs : gmap string node) : gmap string node :=
  filter (outside dir) fs.

(** ** Configuration *)

Definition OWNER_ID : Z := 7833842279.

(** ** The incoming update *)

Record Document := { file_id : string; file_name : option string }.
Record Message := { document : option Document }.
Record User := { id : Z }.
Record Update := { effective_user : option User; message : option Message }.

(** Reading an attribute of [None]. *)
Definition none_has_no (attr : string) : exn :=
  Exn AttributeError ("'NoneType' object has no attribute '" +:+ attr +:+ "'").

(** ** The texts the bot sends *)

Definition unauthorized_text : string :=
  "❌ Unauthorized. You are not allowed to use this bot.".
Definition no_document_text : string :=
  "⚠️ No document detected. Please send a TXT file with URLs.".
Definition not_txt_text : string :=
  "⚠️ Please send a file with .txt extension containing URLs.".
Definition no_valid_urls_text : string :=
  "❌ No valid mpd or m3u8 URLs found in the file." +:+ NL +:+
  "Please check the file and try again.".
Definition found_text (total : nat) : string :=
  "🔎 Found *" +:+ pretty total +:+ "* valid URLs. Starting downloads...".
Definition progress_text (index total : nat) (url : string) : string :=
  "⏳ Downloading (" +:+ pretty index +:+ "/" +:+ pretty total +:+ "):" +:+ NL +:+ url.
Definition transcode_failed_text (url : string) : string :=
  "❌ Failed to download or convert URL:" +:+ NL +:+ url.
Definition delivery_failed_text (index : nat) (e : exn) : string :=
  "❌ Failed to send video " +:+ pretty index +:+ "." +:+ NL +:+ "Error: " +:+ exn_str e.
Definition caption_text (index total : nat) : string :=
  "🎬 Video " +:+ pretty index +:+ " of " +:+ pretty total.
Definition completion_text : string := "✅ All downloads processed.".

(** The list comprehension of line 88. *)
Fixpoint filter_urls (lines : list string) : list string :=
  match lines with
  | [] => []
  | line :: lines' =>
      if endswith_any (lower (strip line)) [".mpd"; ".m3u8"]
      then strip line :: filter_urls lines'
      else filter_urls lines'
  end.

Definition video_path (tmpdir : string) (index : nat) : string :=
  path_join tmpdir ("video_" +:+ pretty index +:+ ".mp4").

Definition ffmpeg_cmd (url video_path : string) : list string :=
  [ "ffmpeg";
    "-hide_banner"; "-loglevel"; "error";
    "-i"; url;
    "-c:v"; "libx264";
    "-c:a"; "aac";
    "-preset"; "veryfast";
    "-y";
    video_path ].

Definition UPLOAD_VIDEO : string := "upload_video".

Section Handler.

Context (w : World).

(** *** Collaborators *)

(** A Bot API call that returns nothing the handler uses. *)
Definition telegram (c : call) : M unit := λ s,
  match telegram_error w (history s) c with
  | None => (Ret tt, log (Did c) s)
  | Some msg => (Raise (Exn TelegramError msg), log (Failed c (Exn TelegramError msg)) s)
  end.

(** [update.message.reply_text(text, parse_mode=...)]: the new message's
    handle is its position in the trace. *)
Definition reply_text (text : string) (parse_mode : option string) : M handle := λ s,
  match telegram_error w (history s) (ReplyText text parse_mode) with
  | None =>
      let h := length (st_trace s) in
      (Ret h, log (Sent h text parse_mode) s)
  | Some msg =>
      (Raise (Exn TelegramError msg),
       log (Failed (ReplyText text parse_mode) (Exn TelegramError msg)) s)
  end.

(** [file.download_to_drive(path)] *)
Definition download_to_drive (file_id path : string) : M unit := λ s,
  match telegram_error w (history s) (DownloadToDrive file_id path) with
  | None =>
      (Ret tt,
       log (Did (DownloadToDrive file_id path))
         (set_fs (<[path := File (document_bytes w file_id)]> (st_fs s)) s))
  | Some msg =>
      (Raise (Exn TelegramError msg),
       log (Failed (DownloadToDrive file_id path) (Exn TelegramError msg)) s)
  end.

Definition no_such_file (path : string) : exn :=
  Exn OSError ("[Errno 2] No such file or directory: '" +:+ path +:+ "'").

(** [with open(path, "r", encoding="utf-8") as f: f.readlines()] *)
Definition read_lines (path : string) : M (list string) := λ s,
  match st_fs s !! path with
  | Some (File content) =>
      match decode_error w content with
      | None => (Ret (readlines content), log (Did (ReadLines path)) s)
      | Some msg =>
          (Raise (Exn UnicodeDecodeError msg),
           log (Failed (ReadLines path) (Exn UnicodeDecodeError msg)) s)
      end
  | _ => (Raise (no_such_file path), log (Failed (ReadLines path) (no_such_file path)) s)
  end.

(** [open(path, "rb")] *)
Definition open_rb (path : string) : M string := λ s,
  match st_fs s !! path with
  | Some (File _) => (Ret path, log (Did (OpenRb path)) s)
  | _ => (Raise (no_such_file path), log (Failed (OpenRb path) (no_such_file path)) s)
  end.

(** The [CalledProcessError] of a non-zero exit status. Its [str] names
    the command line and the status; it is written here for a positive
    status and words without quotes or escapes (Python prints the list
    with [repr], and names the signal for a negative status). *)
Definition called_process_error (cmd : list string) (code : Z) : exn :=
  Exn CalledProcessError
    ("Command '[" +:+ String.concat ", " ((λ a, "'" +:+ a +:+ "'") <$> cmd)
     +:+ "]' returned non-zero exit status " +:+ pretty code +:+ ".").

(** [subprocess.run(cmd, check=True)]. The command is ffmpeg, which
    writes to the path that ends its command line. A command that is not
    started raises: [OSError] when the program cannot be executed; the
    refusal of a NUL character, a [ValueError] in Python, is raised under
    the same class here, and like it is caught by no [except] clause that
    names [CalledProcessError]. *)
Definition subprocess_run_check (cmd : list string) : M unit := λ s,
  match process w (history s) cmd with
  | NotLaunched detail =>
      (Raise (Exn OSError detail), log (Failed (SubprocessRun cmd) (Exn OSError detail)) s)
  | Exited code output =>
      let fs' :=
        match output with
        | Some bytes => <[List.last cmd EmptyString := File bytes]> (st_fs s)
        | None => st_fs s
        end in
      if bool_decide (code = 0%Z)
      then (Ret tt, log (Did (SubprocessRun cmd)) (set_fs fs' s))
      else (Raise (called_process_error cmd code),
            log (Failed (SubprocessRun cmd) (called_process_error cmd code)) (set_fs fs' s))
  end.

Definition file_exists_error : exn :=
  Exn OSError "[Errno 17] No usable temporary directory name found".

(** [with tempfile.TemporaryDirectory() as tmpdir: body]. The directory is
    removed with all it holds however [body] ends. *)
Definition with_TemporaryDirectory {A} (body : string → M A) : M A := λ s,
  let dir := mkdtemp_name w (history s) in
  match st_fs s !! dir with
  | Some _ => (Raise file_exists_error, log (Failed (Mkdtemp dir) file_exists_error) s)
  | None =>
      let s1 := log (Did (Mkdtemp dir)) (set_fs (<[dir := Dir]> (st_fs s)) s) in
      let '(r, s2) := body dir s1 in
      (r, log (Did (RmTree dir)) (set_fs (rmtree dir (st_fs s2)) s2))
  end.

(** *** [owner_only] *)

Definition owner_only (func : Update → M unit) (update : Update) : M unit :=
  let user := effective_user update in
  if bool_decide (user = None ∨ id <$> user ≠ Some OWNER_ID) then
    match message update with
    | Some _ => _ ← reply_text unauthorized_text None; mret tt
    | None => mret tt
    end
  else func update.

(** *** [handle_document] *)

(** The first [try] of the loop body, lines 115-121. It gives [true] when
    the body goes on to the delivery and [false] when it ends by
    [continue]. *)
Definition transcode_step (url video_path : string) (progress_msg : handle) : M bool :=
  try_except
    (_ ← telegram (SendChatAction OWNER_ID UPLOAD_VIDEO);
     _ ← subprocess_run_check (ffmpeg_cmd url video_path);
     mret true)
    (isinstance CalledProcessError)
    (λ _,
       _ ← reply_text (transcode_failed_text url) None;
       _ ← telegram (DeleteMessage progress_msg);
       mret false).

(** The [with open(...)] block that sends the video, lines 125-131. *)
Definition send_video_file (index total : nat) (video_path : string) : M unit :=
  video_file ← open_rb video_path;
  telegram (SendVideo OWNER_ID video_file (caption_text index total) true).

(** The second [try] of the loop body, lines 124-133. *)
Definition delivery_step (index total : nat) (video_path : string) : M unit :=
  try_except
    (send_video_file index total video_path)
    isinstance_Exception
    (λ e, _ ← reply_text (delivery_failed_text index e) None; mret tt).

(** The body of the loop, lines 101-134, for one [index, url]. *)
Definition process_item (tmpdir : string) (total index : nat) (url : string) : M unit :=
  progress_msg ← reply_text (progress_text index total url) None;
  let video_path := video_path tmpdir index in
  transcoded ← transcode_step url video_path progress_msg;
  if transcoded : bool then
    _ ← delivery_step index total video_path;
    telegram (DeleteMessage progress_msg)
  else mret tt.

(** [for index, url in enumerate(urls, start=...)], lines 100-134. *)
Fixpoint process_urls (tmpdir : string) (total index : nat) (urls : list string) : M unit :=
  match urls with
  | [] => mret tt
  | url :: rest =>
      _ ← process_item tmpdir total index url;
      process_urls tmpdir total (S index) rest
  end.

(** From the test of [urls] to the end of the [with] block, lines 90-136. *)
Definition run_batch (tmpdir : string) (urls : list string) : M unit :=
  match urls with
  | [] => _ ← reply_text no_valid_urls_text None; mret tt
  | _ =>
      _ ← reply_text (found_text (length urls)) (Some "Markdown");
      _ ← process_urls tmpdir (length urls) 1 urls;
      _ ← reply_text completion_text None;
      mret tt
  end.

(** The body of the [with] block, lines 80-136. *)
Definition batch (file_id tmpdir : string) : M unit :=
  let txt_fp := path_join tmpdir "urls.txt" in
  _ ← download_to_drive file_id txt_fp;
  lines ← read_lines txt_fp;
  let urls := filter_urls lines in
  run_batch tmpdir urls.

(** The function that [owner_only] decorates, lines 66-136. *)
Definition handle_document_body (update : Update) : M unit :=
  match message update with
  | None => raise (none_has_no "document")
  | Some msg =>
      match document msg with
      | None => _ ← reply_text no_document_text None; mret tt
      | Some doc =>
          match file_name doc with
          | None => raise (none_has_no "lower")
          | Some name =>
              if negb (endswith (lower name) ".txt") then
                _ ← reply_text not_txt_text None; mret tt
              else
                _ ← telegram (GetFile (file_id doc));
                with_TemporaryDirectory (batch (file_id doc))
          end
      end
  end.

Definition handle_document : Update → M unit := owner_only handle_document_body.

End Handler.

(** The state a run starts from: nothing said yet, nothing on disk. *)
Definition initial : State := {| st_trace := []; st_fs := ∅ |}.

(** ** Observations on the trace

    The source keeps no list of results: what became of an item shows in the
    calls made for it. The definitions below read the trace the way the
    specification speaks of it. *)

Global Instance call_eq_dec : EqDecision call.
Proof. solve_decision. Defined.

Global Instance event_eq_dec : EqDecision event.
Proof. solve_decision. Defined.

(** The outcome of one item. *)
Inductive outcome :=
| Delivered
| TranscodeFailed (reason : string)
| DeliveryFailed (reason : string).

(** The URL a command line of [ffmpeg_cmd] reads: the word after "-i". *)
Definition ffmpeg_input (cmd : list string) : string := nth 5 cmd EmptyString.

(** The URL of the item in flight: that of the latest transcode call.
    The trace is read newest event first. *)
Fixpoint current_url (tr : list event) : string :=
  match tr with
  | [] => EmptyString
  | Did (SubprocessRun cmd) :: _ => ffmpeg_input cmd
  | Failed (SubprocessRun cmd) _ :: _ => ffmpeg_input cmd
  | _ :: older => current_url older
  end.

(** What one event settles for the item in flight. *)
Definition settles (older : list event) (e : event) : list (string * outcome) :=
  match e with
  | Failed (SubprocessRun cmd) x =>
      if isinstance CalledProcessError x
      then [(ffmpeg_input cmd, TranscodeFailed (exn_str x))]
      else []
  | Failed (OpenRb _) x => [(current_url older, DeliveryFailed (exn_str x))]
  | Failed (SendVideo _ _ _ _) x => [(current_url older, DeliveryFailed (exn_str x))]
  | Did (SendVideo _ _ _ _) => [(current_url older, Delivered)]
  | _ => []
  end.

(** The outcomes a trace (newest first) records, oldest first. *)
Fixpoint results (tr : list event) : list (string * outcome) :=
  match tr with
  | [] => []
  | e :: older => results older ++ settles older e
  end.

Definition is_progress_text (text : string) : bool :=
  startswith text "⏳ Downloading (".

Definition is_completion_text (text : string) : bool :=
  bool_decide (text = completion_text).

(** How many completion notices a trace holds. *)
Fixpoint completions (tr : list event) : nat :=
  match tr with
  | [] => 0
  | Sent _ text _ :: older =>
      (if is_completion_text text then 1 else 0) + completions older
  | _ :: older => completions older
  end.

(** An event of the work on an item: its progress message, the transcode,
    the delivery, a failure notice, the retraction. *)
Definition item_event (e : event) : bool :=
  match e with
  | Sent _ text _ => is_progress_text text
  | Did (SendChatAction _ _) | Failed (SendChatAction _ _) _ => true
  | Did (SubprocessRun _) | Failed (SubprocessRun _) _ => true
  | Did (OpenRb _) | Failed (OpenRb _) _ => true
  | Did (SendVideo _ _ _ _) | Failed (SendVideo _ _ _ _) _ => true
  | Did (DeleteMessage _) | Failed (DeleteMessage _) _ => true
  | Failed (ReplyText text _) _ => is_progress_text text
  | _ => false
  end.

(** An event that touches neither an item nor the workspace: a text other
    than a progress or completion message, or the fetching of the list. *)
Definition idle_event (e : event) : bool :=
  match e with
  | Sent _ text _ => negb (is_progress_text text) && negb (is_completion_text text)
  | Failed (ReplyText text _) _ => negb (is_progress_text text)
  | Did (GetFile _) | Failed (GetFile _) _ => true
  | Failed (Mkdtemp _) _ => true
  | Did (DownloadToDrive _ _) | Failed (DownloadToDrive _ _) _ => true
  | Did (ReadLines _) | Failed (ReadLines _) _ => true
  | _ => false
  end.


(** The progress discipline, as an automaton that reads the events oldest
    first: at most one progress message stands at a time, and none stands
    when the completion notice goes out. *)
Inductive progress_state :=
| Idle
| Showing (h : handle)
| Broken.

Definition progress_step (st : progress_state) (e : event) : progress_state :=
  match st, e with
  | Broken, _ => Broken
  | Idle, Sent h text _ => if is_progress_text text then Showing h else Idle
  | Showing h', Sent h text _ =>
      if is_progress_text text || is_completion_text text then Broken else Showing h'
  | Showing h', Did (DeleteMessage h) => if bool_decide (h = h') then Idle else Showing h'
  | _, _ => st
  end.

Definition progress_run (st : progress_state) (events : list event) : progress_state :=
  fold_left progress_step events st.

(** The state of the automaton after the events of [new], newest first. *)
Definition watch (new : list event) : progress_state := progress_run Idle (rev new).

(** White space: a character [strip] removes. *)
Definition space (ch : string) : Prop := isspace ch = true.

(** [u] is [line] without the white space at its two ends: the characters
    of [line] are white space, then those of [u], then white space, and [u]
    neither starts nor ends with white space. *)
Definition stripped_form (line u : string) : Prop :=
  ∃ a m b, code_points line = a ++ m ++ b ∧ u = join m
    ∧ Forall space a ∧ Forall space b
    ∧ (∀ ch, head m = Some ch → isspace ch = false)
    ∧ (∀ ch, last m = Some ch → isspace ch = false).

(** [a] is the letter [b], in either case. *)
Definition same_letter (a b : ascii) : Prop :=
  a = b ∨ (65 ≤ nat_of_ascii a ≤ 90 ∧ nat_of_ascii b = nat_of_ascii a + 32).

Global Instance same_letter_dec a b : Decision (same_letter a b).
Proof. unfold same_letter. apply _. Defined.

(** The last characters of [s] are those of [suffix], whatever their
    case. *)
Definition ends_in_any_case (suffix s : string) : Prop :=
  Forall2 same_letter
    (drop (String.length s - String.length suffix) (chars s)) (chars suffix).

Global Instance ends_in_any_case_dec suffix s : Decision (ends_in_any_case suffix s).
Proof. unfold ends_in_any_case. apply _. Defined.

(** A URL of a manifest: it ends, case-insensitively, in .mpd or .m3u8. *)
Definition manifest_url (u : string) : Prop :=
  ends_in_any_case ".mpd" u ∨ ends_in_any_case ".m3u8" u.

Global Instance manifest_url_dec u : Decision (manifest_url u).
Proof. unfold manifest_url. apply _. Defined.

(** [s] ends in [suffix], on the characters. *)
Definition ends_in (suffix s : string) : Prop := chars suffix `suffix_of` chars s.

Global Instance ends_in_dec suffix s : Decision (ends_in suffix s).
Proof. unfold ends_in. apply _. Defined.

(** The pieces [code_points] cuts: a byte and the continuation bytes that
    follow it, each piece but the first starting with a byte that is not a
    continuation byte. *)
Definition continued (ch : string) : Prop :=
  match ch with
  | EmptyString => False
  | String _ t => Forall (λ c, continuation c = true) (chars t)
  end.

Definition well_cut (points : list string) : Prop :=
  Forall continued points ∧ Forall (λ ch, starts_continuation ch = false) (tail points).

(** A capital letter of ASCII. *)
Definition capital (c : ascii) : Prop := 65 ≤ nat_of_ascii c ≤ 90.

(** The test of the comprehension, on characters. *)
Definition manifest_line (line : string) : Prop :=
  ends_in ".mpd" (lower (strip line)) ∨ ends_in ".m3u8" (lower (strip line)).

Global Instance manifest_line_dec line : Decision (manifest_line line).
Proof. unfold manifest_line. apply _. Defined.

(** The transport answers every text, chat-action and deletion call. *)
Definition control_call (c : call) : bool :=
  match c with
  | ReplyText _ _ | SendChatAction _ _ | DeleteMessage _ => true
  | _ => false
  end.

Definition transport_ok (w : World) : Prop :=
  ∀ past c, control_call c = true → telegram_error w past c = None.

(** [a] holds no NUL character. *)
Definition no_nul (a : string) : Prop := "000"%char ∉ chars a.

(** The tool is installed: every command line without a NUL character is
    started, and runs to an exit status. *)
Definition tool_launches (w : World) : Prop :=
  ∀ past cmd, Forall no_nul cmd → ∃ code output, process w past cmd = Exited code output.

(** An update from the owner that carries the document [doc], named [name],
    a .txt file. *)
Definition txt_update (update : Update) (doc : Document) (name : string) : Prop :=
  effective_user update = Some {| id := OWNER_ID |}
  ∧ message update = Some {| document := Some doc |}
  ∧ file_name doc = Some name
  ∧ endswith (lower name) ".txt" = true.

(** A message the handler turns away: no document, or one whose name does
    not end in .txt. *)
Definition turned_away (msg : Message) : Prop :=
  document msg = None
  ∨ ∃ doc name, document msg = Some doc ∧ file_name doc = Some name
      ∧ ¬ ends_in ".txt" (lower name).

(** The state of the loop body for [index, url] once its progress message
    is out and the chat action is sent: where the tool is started. *)
Definition item_started (s : State) (index total : nat) (url : string) : State :=
  log (Did (SendChatAction OWNER_ID UPLOAD_VIDEO))
    (log (Sent (length (st_trace s)) (progress_text index total url) None) s).


(** ** Sample worlds and updates *)

Definition sample_list : string :=
  "a.mpd" +:+ NL +:+ "  b.M3U8 " +:+ NL +:+ "notes" +:+ NL +:+ "bad.mpd" +:+ NL.

(** A world where all goes well, except that the tool fails on the URLs
    that start with "bad". *)
Definition sample_world (list : string) : World := {|
  telegram_error := λ _ _, None;
  document_bytes := λ _, list;
  decode_error := λ _, None;
  mkdtemp_name := λ _, "/tmp/tmpk3x";
  tool := λ _ cmd,
    if startswith (ffmpeg_input cmd) "bad" then Exited 1 None else Exited 0 (Some "mp4");
|}.

(** The tool is not installed. *)
Definition world_without_tool (list : string) : World := {|
  telegram_error := λ _ _, None;
  document_bytes := λ _, list;
  decode_error := λ _, None;
  mkdtemp_name := λ _, "/tmp/tmpk3x";
  tool := λ _ _, NotLaunched "[Errno 2] No such file or directory: 'ffmpeg'";
|}.

(** The progress message is gone when the bot comes to delete it. *)
Definition world_message_gone (list : string) : World := {|
  telegram_error := λ _ c,
    match c with
    | DeleteMessage _ => Some "Message to delete not found"
    | _ => None
    end;
  document_bytes := λ _, list;
  decode_error := λ _, None;
  mkdtemp_name := λ _, "/tmp/tmpk3x";
  tool := λ _ _, Exited 0 (Some "mp4");
|}.


(** Telegram refuses the upload, and the progress message is gone. *)
Definition world_refused_and_gone (list : string) : World := {|
  telegram_error := λ _ c,
    match c with
    | SendVideo _ _ _ _ => Some "Request Entity Too Large"
    | DeleteMessage _ => Some "Message to delete not found"
    | _ => None
    end;
  document_bytes := λ _, list;
  decode_error := λ _, None;
  mkdtemp_name := λ _, "/tmp/tmpk3x";
  tool := λ _ _, Exited 0 (Some "mp4");
|}.

Definition owner_update (name : string) : Update := {|
  effective_user := Some {| id := OWNER_ID |};
  message := Some {| document := Some {| file_id := "F1"; file_name := Some name |} |};
|}.

(** ** The claims the code does not meet, as they are stated *)



(** C3 as stated: with no valid URL in the list, no workspace is created. *)
Definition no_workspace_without_urls (w : World) (update : Update) : Prop :=
  ∀ doc name, txt_update update doc name →
    filter_urls (readlines (document_bytes w (file_id doc))) = [] →
    ∀ dir, Did (Mkdtemp dir) ∉ st_trace (handle_document w update initial).2.



(** C8 as stated: a retraction that fails does not stop the batch, which
    reaches its completion notice. *)
Definition retraction_failure_swallowed (w : World) (update : Update) : Prop :=
  ∀ h x, Failed (DeleteMessage h) x ∈ st_trace (handle_document w update initial).2 →
    (handle_document w update initial).1 = Ret tt
    ∧ completions (st_trace (handle_document w update initial).2) = 1%nat.


(** ** The other handlers *)

Definition welcome_message : string :=
  "📥 *Welcome to the Batch Video Downloader Bot!*" +:+ NL +:+ NL +:+
  "Send me a *TXT* file containing a list of *mpd* or *m3u8* URLs (one per line)," +:+ NL +:+
  "and I will download each video stream and send it back to you." +:+ NL +:+ NL +:+
  "⚠️ Note: There are _no_ file size limits on downloads. " +:+
  "However, Telegram has upload limits that may prevent very large files from being delivered."
  +:+ NL +:+ NL +:+
  "_Only the owner can use this bot._".

Definition unknown_text : string :=
  "❓ Please send a TXT file with mpd/m3u8 URLs or /start to begin.".

Section TextHandlers.

Context (w : World).

(** The function that [owner_only] decorates, lines 52-63.
    [reply_markdown_v2] is [reply_text] with the MarkdownV2 parse mode. *)
Definition start_handler_body (update : Update) : M unit :=
  match message update with
  | None => raise (none_has_no "reply_markdown_v2")
  | Some _ => _ ← reply_text w welcome_message (Some "MarkdownV2"); mret tt
  end.

Definition start_handler : Update → M unit := owner_only w start_handler_body.

(** The function that [owner_only] decorates, lines 139-142. *)
Definition unknown_message_body (update : Update) : M unit :=
  match message update with
  | None => raise (none_has_no "reply_text")
  | Some _ => _ ← reply_text w unknown_text None; mret tt
  end.

Definition unknown_message : Update → M unit := owner_only w unknown_message_body.

End TextHandlers.

(** ** Further observations *)

(** The sender is the owner. *)
Definition is_owner (update : Update) : Prop :=
  id <$> effective_user update = Some OWNER_ID.

(** The handler made one call, a reply with [text], and that is all. *)
Definition replied_once (text : string) (parse_mode : option string)
    (s : State) (r : res unit) (s' : State) : Prop :=
  (∃ h, r = Ret tt ∧ s' = log (Sent h text parse_mode) s)
  ∨ (∃ x, r = Raise x ∧ exn_cls x = TelegramError
       ∧ s' = log (Failed (ReplyText text parse_mode) x) s).

(** The command lines a trace (newest first) holds, oldest first, whether
    the tool started or not. *)
Fixpoint commands (tr : list event) : list (list string) :=
  match tr with
  | [] => []
  | Did (SubprocessRun cmd) :: older => commands older ++ [cmd]
  | Failed (SubprocessRun cmd) _ :: older => commands older ++ [cmd]
  | _ :: older => commands older
  end.

(** The progress messages a trace (newest first) holds, oldest first. *)
Fixpoint announced (tr : list event) : list string :=
  match tr with
  | [] => []
  | Sent _ text _ :: older =>
      if is_progress_text text then announced older ++ [text] else announced older
  | _ :: older => announced older
  end.

(** The command lines of [enumerate(urls, start=index)], in order. *)
Fixpoint planned_commands (tmpdir : string) (index : nat) (urls : list string)
    : list (list string) :=
  match urls with
  | [] => []
  | url :: rest =>
      ffmpeg_cmd url (video_path tmpdir index) :: planned_commands tmpdir (S index) rest
  end.

(** The progress texts of [enumerate(urls, start=index)], in order. *)
Fixpoint planned_progress (total index : nat) (urls : list string) : list string :=
  match urls with
  | [] => []
  | url :: rest => progress_text index total url :: planned_progress total (S index) rest
  end.

(** The call an event is about. *)
Definition call_of (e : event) : call :=
  match e with
  | Sent _ text parse_mode => ReplyText text parse_mode
  | Did c => c
  | Failed c _ => c
  end.

(** What must come right before an event of the work on an item, [older]
    being the events before it, newest first. *)
Definition well_placed (e : event) (older : list event) : Prop :=
  match e with
  | Did (SubprocessRun cmd) | Failed (SubprocessRun cmd) _ =>
      ∃ url path h index total rest,
        cmd = ffmpeg_cmd url path
        ∧ older = Did (SendChatAction OWNER_ID UPLOAD_VIDEO)
                  :: Sent h (progress_text index total url) None :: rest
  | Did (OpenRb path) | Failed (OpenRb path) _ =>
      ∃ url rest, older = Did (SubprocessRun (ffmpeg_cmd url path)) :: rest
  | Did (SendVideo chat path _ _) | Failed (SendVideo chat path _ _) _ =>
      chat = OWNER_ID
      ∧ ∃ url rest,
          older = Did (OpenRb path) :: Did (SubprocessRun (ffmpeg_cmd url path)) :: rest
  | Did (DeleteMessage h) | Failed (DeleteMessage h) _ =>
      ∃ text, is_progress_text text = true ∧ Sent h text None ∈ older
  | _ => True
  end.

(** Every event of [new] (newest first) is well placed among those of
    [new] that come before it. *)
Fixpoint orderly (new : list event) : Prop :=
  match new with
  | [] => True
  | e :: older => well_placed e older ∧ orderly older
  end.

(** [s] with every line feed turned into carriage return, line feed. *)
Fixpoint crlf (s : string) : string :=
  match s with
  | EmptyString => EmptyString
  | String c s' =>
      if Ascii.eqb c "010" then String "013" (String "010" (crlf s'))
      else String c (crlf s')
  end.

(** [s] holds no carriage return. *)
Definition no_cr (s : string) : Prop := "013"%char ∉ chars s.

(** Everything answers but, maybe, the upload and the tool's exit status:
    the chat, the file service, the decoder, and [tempfile] picks a free
    name, without a NUL character. *)
Definition dependable (w : World) (fid : string) (s : State) : Prop :=
  transport_ok w ∧ tool_launches w
  ∧ (∀ past, telegram_error w past (GetFile fid) = None)
  ∧ (∀ past path, telegram_error w past (DownloadToDrive fid path) = None)
  ∧ decode_error w (document_bytes w fid) = None
  ∧ (∀ past, st_fs s !! mkdtemp_name w past = None)
  ∧ (∀ past, no_nul (mkdtemp_name w past)).

(** An update from somebody else, and one of the owner without a message. *)
Definition stranger_update : Update := {|
  effective_user := Some {| id := 42 |};
  message := Some {| document := Some {| file_id := "F1"; file_name := Some "list.txt" |} |};
|}.

Definition bare_update : Update := {|
  effective_user := Some {| id := OWNER_ID |};
  message := None;
|}.


(** * Properties *)

Global Arguments is_progress_text : simpl never.
Global Arguments is_completion_text : simpl never.
Global Arguments progress_text : simpl never.
Global Arguments transcode_failed_text : simpl never.
Global Arguments delivery_failed_text : simpl never.
Global Arguments found_text : simpl never.
Global Arguments caption_text : simpl never.
Global Arguments completion_text : simpl never.
Global Arguments no_valid_urls_text : simpl never.
Global Arguments unauthorized_text : simpl never.
Global Arguments no_document_text : simpl never.
Global Arguments not_txt_text : simpl never.
Global Arguments video_path : simpl never.
Global Arguments ffmpeg_cmd : simpl never.
Global Arguments called_process_error : simpl never.
Global Arguments no_such_file : simpl never.
Global Arguments file_exists_error : simpl never.
Global Arguments history : simpl never.
Global Arguments process : simpl never.
Global Arguments under : simpl never.
Global Arguments path_join : simpl never.

(** ** Strings *)

Example readlines_keeps_line_ends :
  readlines ("a.mpd" +:+ String "013" (String "010" "b.m3u8") +:+ NL +:+ NL +:+ "c")
  = ["a.mpd" +:+ NL; "b.m3u8" +:+ NL; NL; "c"].
Proof. reflexivity. Qed.

Example strip_both_ends : strip ("  a.MPD " +:+ NL) = "a.MPD".
Proof. by vm_compute. Qed.

Example code_points_sample :
  code_points ("a" +:+ utf8 [195; 169; 227; 128; 128] +:+ "b")
  = ["a"; utf8 [195; 169]; utf8 [227; 128; 128]; "b"].
Proof. by vm_compute. Qed.

(** A no-break space (U+00A0), an ideographic space (U+3000) and a line
    separator (U+2028) are stripped like a blank. *)
Example strip_beyond_ascii :
  strip (utf8 [227; 128; 128] +:+ "a.mpd" +:+ utf8 [194; 160; 226; 128; 168]) = "a.mpd".
Proof. by vm_compute. Qed.

Example endswith_after_lower : endswith_any (lower "x.M3U8") [".mpd"; ".m3u8"] = true.
Proof. reflexivity. Qed.

Example filter_urls_sample :
  filter_urls (readlines sample_list) = ["a.mpd"; "b.M3U8"; "bad.mpd"].
Proof. reflexivity. Qed.

Lemma chars_length s : length (chars s) = String.length s.
Proof. induction s; simpl; congruence. Qed.

Lemma chars_inj s t : chars s = chars t → s = t.
Proof.
  revert t. induction s as [|c s IH]; intros [|d t] H; simpl in H; try done.
  injection H as -> H. f_equal. by apply IH.
Qed.

Lemma chars_substring s : ∀ n m,
  chars (String.substring n m s) = take m (drop n (chars s)).
Proof.
  induction s as [|c s IH]; intros [|n] [|m]; simpl; try done.
  all: try (f_equal; apply (IH 0%nat m)).
  all: try apply (IH n 0%nat).
  all: try apply (IH n (S m)).
Qed.

Lemma chars_app s t : chars (s +:+ t) = chars s ++ chars t.
Proof. induction s; simpl; [done|]. by f_equal. Qed.

(** [endswith] computes the suffix relation. *)
Lemma endswith_spec s suffix : endswith s suffix = true ↔ ends_in suffix s.
Proof.
  unfold endswith, ends_in. rewrite andb_true_iff, Nat.leb_le, String.eqb_eq.
  split.
  - intros [Hle Heq]. exists (take (String.length s - String.length suffix) (chars s)).
    rewrite <- Heq at 2. rewrite chars_substring.
    rewrite (take_ge (drop _ _)); [by rewrite take_drop|].
    rewrite length_drop, chars_length. lia.
  - intros [pre Hpre].
    assert (String.length s = (length pre + String.length suffix)%nat) as Hn.
    { by rewrite <- !chars_length, Hpre, length_app. }
    split; [lia|]. apply chars_inj. rewrite chars_substring, Hpre, Hn.
    replace (length pre + String.length suffix - String.length suffix)%nat
      with (length pre) by lia.
    rewrite drop_app_length. apply take_ge. rewrite chars_length. lia.
Qed.


Lemma endswith_any_manifest line :
  endswith_any (lower (strip line)) [".mpd"; ".m3u8"] = true ↔ manifest_line line.
Proof.
  unfold endswith_any, manifest_line. simpl.
  rewrite orb_false_r, orb_true_iff, !endswith_spec. done.
Qed.

Lemma startswith_app p s : startswith (p +:+ s) p = true.
Proof.
  induction p as [|a p IH]; [done|].
  change (Ascii.eqb a a && startswith (p +:+ s) p = true).
  by rewrite Ascii.eqb_refl.
Qed.

Lemma string_app_assoc s t u : (s +:+ t) +:+ u = s +:+ t +:+ u.
Proof. apply chars_inj. by rewrite !chars_app, app_assoc. Qed.

Lemma under_path_join dir name : under dir (path_join dir name) = true.
Proof.
  unfold under, path_join. rewrite <- string_app_assoc. apply startswith_app.
Qed.

Lemma last_rev_head {A} (l : list A) : last (rev l) = head l.
Proof. destruct l as [|x l]; [done|]. simpl. apply last_snoc. Qed.

Lemma head_rev_last {A} (l : list A) : head (rev l) = last l.
Proof. rewrite <- (rev_involutive l) at 2. by rewrite last_rev_head. Qed.

Lemma join_code_points s : join (code_points s) = s.
Proof.
  induction s as [|c s IH]; [done|].
  simpl. destruct (code_points s) as [|ch rest]; simpl in *.
  - by rewrite <- IH.
  - destruct (starts_continuation ch); simpl; by rewrite <- IH.
Qed.

Lemma lstrip_points_spec l :
  ∃ a, l = a ++ lstrip_points l ∧ Forall space a
    ∧ ∀ ch, head (lstrip_points l) = Some ch → isspace ch = false.
Proof.
  induction l as [|ch l (a & Hl & Ha & Hhead)]; simpl.
  - exists []. split; [done|]. split; [done|]. intros c Hc. discriminate Hc.
  - destruct (isspace ch) eqn:Hc.
    + exists (ch :: a). rewrite Hl at 1. split; [done|]. split; [by constructor|done].
    + exists []. split; [done|]. split; [done|]. simpl. by intros ? [= <-].
Qed.

(** [strip_points] takes white space, and only white space, off both
    ends. *)
Lemma strip_points_spec l :
  ∃ a b, l = a ++ strip_points l ++ b ∧ Forall space a ∧ Forall space b
    ∧ (∀ ch, head (strip_points l) = Some ch → isspace ch = false)
    ∧ (∀ ch, last (strip_points l) = Some ch → isspace ch = false).
Proof.
  destruct (lstrip_points_spec l) as (a & Hl & Ha & Hhead).
  destruct (lstrip_points_spec (rev (lstrip_points l))) as (b & Hr & Hb & Hlast).
  exists a, (rev b). unfold strip_points. split_and!.
  - by rewrite <- rev_app_distr, <- Hr, rev_involutive.
  - done.
  - by apply Forall_rev.
  - intros ch Hch. apply Hhead.
    rewrite <- (rev_involutive (lstrip_points l)), Hr, rev_app_distr.
    destruct (rev (lstrip_points (rev (lstrip_points l)))); [done|]. exact Hch.
  - intros ch Hch. apply Hlast. by rewrite last_rev_head in Hch.
Qed.

Lemma lstrip_points_blank a l :
  Forall space a → lstrip_points (a ++ l) = lstrip_points l.
Proof. induction 1 as [|ch a Hch _ IH]; [done|]. simpl. by rewrite Hch. Qed.

Lemma lstrip_points_fixed l :
  (∀ ch, head l = Some ch → isspace ch = false) → lstrip_points l = l.
Proof. destruct l as [|ch l]; [done|]. intros H. simpl. by rewrite (H ch). Qed.

Lemma lstrip_points_all_blank a : Forall space a → lstrip_points a = [].
Proof. intros H. rewrite <- (app_nil_r a). by rewrite lstrip_points_blank. Qed.

(** There is one way only to take the white space off both ends. *)
Lemma strip_points_unique l a m b :
  l = a ++ m ++ b → Forall space a → Forall space b →
  (∀ ch, head m = Some ch → isspace ch = false) →
  (∀ ch, last m = Some ch → isspace ch = false) →
  strip_points l = m.
Proof.
  intros -> Ha Hb Hh Hl. unfold strip_points.
  rewrite lstrip_points_blank by done.
  destruct m as [|ch m].
  - simpl. by rewrite (lstrip_points_all_blank b) by done.
  - rewrite (lstrip_points_fixed ((ch :: m) ++ b)) by (intros ? [= <-]; by apply Hh).
    rewrite rev_app_distr, lstrip_points_blank by by apply Forall_rev.
    rewrite lstrip_points_fixed; [apply rev_involutive|].
    intros c Hc. rewrite head_rev_last in Hc. by apply Hl.
Qed.

Lemma strip_stripped_form line u : stripped_form line u ↔ strip line = u.
Proof.
  split.
  - intros (a & m & b & Hl & -> & Ha & Hb & Hh & Hlast). unfold strip.
    by rewrite (strip_points_unique _ a m b).
  - intros <-. destruct (strip_points_spec (code_points line)) as (a & b & H & ?).
    by exists a, (strip_points (code_points line)), b.
Qed.

Lemma code_points_well_cut s : well_cut (code_points s).
Proof.
  induction s as [|c s [Hc Hs]]; [by split|].
  simpl. destruct (code_points s) as [|ch rest]; simpl in *.
  - split; [|done]. by repeat constructor.
  - apply Forall_cons in Hc as [Hch Hrest].
    destruct (starts_continuation ch) eqn:Hstart; split; simpl.
    + constructor; [|done]. destruct ch as [|c' t]; [done|]. simpl in *. by constructor.
    + done.
    + by repeat constructor.
    + by constructor.
Qed.

Lemma code_points_continued t : ∀ c s2,
  Forall (λ c, continuation c = true) (chars t) →
  (∀ ch rest, code_points s2 = ch :: rest → starts_continuation ch = false) →
  code_points (String c (t +:+ s2)) = String c t :: code_points s2.
Proof.
  induction t as [|c' t IH]; intros c s2 Ht Hs2.
  - change (EmptyString +:+ s2) with s2. simpl.
    destruct (code_points s2) as [|ch rest] eqn:E; [done|]. by rewrite (Hs2 ch rest).
  - change (String c' t +:+ s2) with (String c' (t +:+ s2)).
    simpl in Ht. apply Forall_cons in Ht as [Hc' Ht].
    change (code_points (String c (String c' (t +:+ s2))))
      with (match code_points (String c' (t +:+ s2)) with
            | ch :: rest =>
                if starts_continuation ch then String c ch :: rest
                else String c EmptyString :: ch :: rest
            | [] => [String c EmptyString]
            end).
    rewrite IH by done. simpl. by rewrite Hc'.
Qed.

(** Cutting what was joined gives the pieces back. *)
Lemma code_points_join points : well_cut points → code_points (join points) = points.
Proof.
  induction points as [|ch points IH]; intros [Hc Hs]; [done|].
  apply Forall_cons in Hc as [Hch Hc]. simpl in Hs.
  assert (code_points (join points) = points) as Hrest.
  { apply IH. split; [done|]. destruct points; [done|]. simpl.
    by apply Forall_cons in Hs as [_ ?]. }
  destruct ch as [|c t]; [done|]. simpl in Hch.
  change (join (String c t :: points)) with (String c (t +:+ join points)).
  rewrite code_points_continued, Hrest; [done..|].
  rewrite Hrest. intros ch rest ->. by apply Forall_cons in Hs as [? _].
Qed.

Lemma well_cut_middle a m b : well_cut (a ++ m ++ b) → well_cut m.
Proof.
  intros [Hc Hs]. apply Forall_app in Hc as [_ [Hm _]%Forall_app]. split; [done|].
  destruct a as [|x a]; simpl in Hs.
  - destruct m as [|y m]; [done|]. simpl in *. by apply Forall_app in Hs as [? _].
  - apply Forall_app in Hs as [_ [Hm' _]%Forall_app].
    destruct m; [done|]. simpl. by apply Forall_cons in Hm' as [_ ?].
Qed.

Lemma code_points_strip s : code_points (strip s) = strip_points (code_points s).
Proof.
  destruct (strip_points_spec (code_points s)) as (a & b & Hs & _).
  apply code_points_join, (well_cut_middle a _ b). rewrite <- Hs.
  apply code_points_well_cut.
Qed.

Lemma strip_idempotent s : strip (strip s) = strip s.
Proof.
  unfold strip at 1. rewrite code_points_strip.
  destruct (strip_points_spec (code_points s)) as (a & b & _ & _ & _ & Hh & Hl).
  by rewrite (strip_points_unique _ [] (strip_points (code_points s)) [])
    by (rewrite ?app_nil_r; done).
Qed.

(** Letters and their case. *)

Lemma chars_lower s : chars (lower s) = lower_char <$> chars s.
Proof. induction s as [|c s IH]; [done|]. simpl. by rewrite IH. Qed.

Lemma lower_char_same_letter a b :
  ¬ capital b → lower_char a = b ↔ same_letter a b.
Proof.
  unfold capital, same_letter, lower_char. intros Hb.
  destruct ((65 <=? nat_of_ascii a) && (nat_of_ascii a <=? 90)) eqn:E.
  - apply andb_true_iff in E as [H1%Nat.leb_le H2%Nat.leb_le]. split.
    + intros <-. right. split; [lia|]. apply nat_ascii_embedding. lia.
    + intros [->|[_ H]]; [lia|]. rewrite <- H. apply ascii_nat_embedding.
  - apply andb_false_iff in E. split; [by left|].
    intros [->|[[H1 H2] _]]; [done|].
    destruct E as [E|E]; apply Nat.leb_gt in E; lia.
Qed.

Lemma fmap_eq_Forall2 {A B} (f : A → B) l k :
  f <$> l = k ↔ Forall2 (λ a b, f a = b) l k.
Proof.
  split.
  - intros <-. induction l; by constructor.
  - induction 1; simpl; by f_equal.
Qed.

Lemma suffix_drop_iff {A} (k l : list A) :
  k `suffix_of` l ↔ drop (length l - length k) l = k.
Proof.
  split.
  - intros [pre ->]. rewrite length_app.
    replace (length pre + length k - length k) with (length pre) by lia.
    apply drop_app_length.
  - intros <-. apply suffix_drop.
Qed.

(** [endswith] after [lower] compares the last characters up to their
    case, for a suffix that holds no capital letter. *)
Lemma endswith_lower s suffix :
  Forall (λ b, ¬ capital b) (chars suffix) →
  endswith (lower s) suffix = true ↔ ends_in_any_case suffix s.
Proof.
  intros Hlow. rewrite endswith_spec. unfold ends_in, ends_in_any_case.
  rewrite suffix_drop_iff, chars_lower, length_fmap, !chars_length, <- fmap_drop.
  rewrite fmap_eq_Forall2.
  generalize (drop (String.length s - String.length suffix) (chars s)).
  induction Hlow as [|b k Hb _ IH]; intros l.
  - split; intros H; inversion H; constructor.
  - split; intros H; inversion H; subst; constructor;
      try (by apply IH); by apply lower_char_same_letter.
Qed.

Lemma endswith_any_manifest_url u :
  endswith_any (lower u) [".mpd"; ".m3u8"] = true ↔ manifest_url u.
Proof.
  unfold endswith_any, manifest_url. simpl.
  rewrite orb_false_r, orb_true_iff.
  rewrite !endswith_lower; [done|..].
  all: apply (bool_decide_unpack _); by vm_compute.
Qed.

(** ** C9: the URL filter *)(** ** C9: the URL filter *)

Lemma filter_urls_spec (lines : list string) :
  filter_urls lines = strip <$> filter manifest_line lines.
Proof.
  induction lines as [|line lines IH]; [done|].
  cbn [filter_urls]. rewrite filter_cons.
  destruct (decide (manifest_line line)) as [H|H].
  - apply endswith_any_manifest in H. rewrite H. rewrite fmap_cons. by f_equal.
  - destruct (endswith_any _ _) eqn:E; [|done].
    apply endswith_any_manifest in E. done.
Qed.

Lemma filter_urls_manifest lines :
  filter_urls lines = filter manifest_url (strip <$> lines).
Proof.
  induction lines as [|line lines IH]; [done|].
  cbn [filter_urls]. rewrite fmap_cons, filter_cons.
  destruct (decide (manifest_url (strip line))) as [H|H].
  - apply endswith_any_manifest_url in H. rewrite H. by f_equal.
  - destruct (endswith_any _ _) eqn:E; [|done].
    by apply endswith_any_manifest_url in E.
Qed.

Example filter_urls_beyond_ascii :
  filter_urls ["a.mpd" +:+ utf8 [194; 160] +:+ NL; utf8 [227; 128; 128] +:+ "c.M3U8";
               "d.mpd" +:+ utf8 [194; 160] +:+ "e"]
  = ["a.mpd"; "c.M3U8"].
Proof. by vm_compute. Qed.

(** C9. What [strip] gives for a line is the line without the white space,
    ASCII or not, at its two ends, and nothing else is; the filter gives,
    in the order of the input, the stripped forms that end in .mpd or in
    .m3u8 whatever the case of these letters, and drops every other
    line. *)
Theorem filter_urls_keeps_manifest_lines :
  (∀ line u, stripped_form line u ↔ strip line = u)
  ∧ (∀ lines, filter_urls lines = filter manifest_url (strip <$> lines)).
Proof. split; [apply strip_stripped_form|apply filter_urls_manifest]. Qed.

(** ** The texts tell the messages apart *)

Lemma progress_of_progress i n u : is_progress_text (progress_text i n u) = true.
Proof. reflexivity. Qed.
Lemma progress_of_transcode_failed u : is_progress_text (transcode_failed_text u) = false.
Proof. reflexivity. Qed.
Lemma progress_of_delivery_failed i e : is_progress_text (delivery_failed_text i e) = false.
Proof. reflexivity. Qed.
Lemma progress_of_found n : is_progress_text (found_text n) = false.
Proof. reflexivity. Qed.
Lemma progress_of_completion : is_progress_text completion_text = false.
Proof. reflexivity. Qed.
Lemma progress_of_no_valid_urls : is_progress_text no_valid_urls_text = false.
Proof. reflexivity. Qed.
Lemma progress_of_unauthorized : is_progress_text unauthorized_text = false.
Proof. reflexivity. Qed.
Lemma progress_of_no_document : is_progress_text no_document_text = false.
Proof. reflexivity. Qed.
Lemma progress_of_not_txt : is_progress_text not_txt_text = false.
Proof. reflexivity. Qed.
Lemma completion_of_transcode_failed u : is_completion_text (transcode_failed_text u) = false.
Proof. reflexivity. Qed.
Lemma completion_of_delivery_failed i e : is_completion_text (delivery_failed_text i e) = false.
Proof. reflexivity. Qed.
Lemma completion_of_progress i n u : is_completion_text (progress_text i n u) = false.
Proof. reflexivity. Qed.
Lemma completion_of_found n : is_completion_text (found_text n) = false.
Proof. reflexivity. Qed.
Lemma completion_of_no_valid_urls : is_completion_text no_valid_urls_text = false.
Proof. reflexivity. Qed.
Lemma completion_of_unauthorized : is_completion_text unauthorized_text = false.
Proof. reflexivity. Qed.
Lemma completion_of_no_document : is_completion_text no_document_text = false.
Proof. reflexivity. Qed.
Lemma completion_of_not_txt : is_completion_text not_txt_text = false.
Proof. reflexivity. Qed.
Lemma completion_of_completion : is_completion_text completion_text = true.
Proof. reflexivity. Qed.

Create Rewrite HintDb texts.
#[global] Hint Rewrite progress_of_progress progress_of_transcode_failed
  progress_of_delivery_failed progress_of_found progress_of_completion
  progress_of_no_valid_urls progress_of_unauthorized progress_of_no_document
  progress_of_not_txt completion_of_transcode_failed
  completion_of_delivery_failed completion_of_progress completion_of_found
  completion_of_completion completion_of_no_valid_urls
  completion_of_unauthorized completion_of_no_document completion_of_not_txt : texts.

Lemma ffmpeg_input_cmd url path : ffmpeg_input (ffmpeg_cmd url path) = url.
Proof. reflexivity. Qed.

Lemma ffmpeg_output_cmd url path : List.last (ffmpeg_cmd url path) EmptyString = path.
Proof. reflexivity. Qed.


(** ** Reading the trace *)

Lemma progress_run_app st l1 l2 :
  progress_run st (l1 ++ l2) = progress_run (progress_run st l1) l2.
Proof. apply fold_left_app. Qed.

Lemma progress_run_broken l : progress_run Broken l = Broken.
Proof. induction l; simpl; auto. Qed.

Lemma watch_cons e new : watch (e :: new) = progress_step (watch new) e.
Proof. unfold watch. simpl. by rewrite progress_run_app. Qed.

Lemma watch_app new2 new1 :
  watch new1 = Idle → watch (new2 ++ new1) = watch new2.
Proof. unfold watch. intros H. by rewrite rev_app_distr, progress_run_app, H. Qed.

Lemma completions_app new old :
  completions (new ++ old) = (completions new + completions old)%nat.
Proof.
  induction new as [|e new IH]; [done|].
  destruct e as [h text pm|c|c x]; simpl; rewrite IH; lia.
Qed.

(** ** One item, and the loop *)

Global Arguments process_urls : simpl never.

Ltac unfold_item :=
  unfold process_item, transcode_step, delivery_step, send_video_file, try_except,
    telegram, reply_text, open_rb, subprocess_run_check, isinstance,
    isinstance_Exception, mbind, M_bind, mret, M_ret in *.

Lemma added_nil (tr : list event) : tr = [] ++ tr.
Proof. done. Qed.

Lemma added_cons (e : event) l new tr : l = new ++ tr → e :: l = (e :: new) ++ tr.
Proof. by intros ->. Qed.

(** Split [e1 :: ... :: en :: tr] as [[e1; ...; en] ++ tr]. *)
Ltac added :=
  simpl; eexists; split; [repeat apply added_cons; apply added_nil|].

Section Loop.

Context (w : World) (tmpdir : string) (total : nat).

Lemma process_urls_cons index url rest s :
  process_urls w tmpdir total index (url :: rest) s =
  match process_item w tmpdir total index url s with
  | (Ret _, s1) => process_urls w tmpdir total (S index) rest s1
  | (Raise x, s1) => (Raise x, s1)
  end.
Proof. reflexivity. Qed.

(** *** The progress discipline *)

Lemma process_item_watch index url s r s' :
  process_item w tmpdir total index url s = (r, s') →
  ∃ new, st_trace s' = new ++ st_trace s
    ∧ watch new ≠ Broken ∧ (∀ a, r = Ret a → watch new = Idle).
Proof.
  intros Hrun. unfold_item.
  repeat (case_match; simplify_eq/=).
  all: added.
  all: rewrite ?watch_cons; unfold watch; simpl.
  all: autorewrite with texts; simpl.
  all: rewrite ?bool_decide_eq_true_2 by done.
  all: split; [done|]; intros; done.
Qed.

Lemma process_urls_watch urls : ∀ index s r s',
  process_urls w tmpdir total index urls s = (r, s') →
  ∃ new, st_trace s' = new ++ st_trace s
    ∧ watch new ≠ Broken ∧ (∀ a, r = Ret a → watch new = Idle).
Proof.
  induction urls as [|url rest IH]; intros index s r s' Hrun.
  - injection Hrun as <- <-. by exists [].
  - rewrite process_urls_cons in Hrun.
    destruct (process_item w tmpdir total index url s) as [[[]|x] s1] eqn:Hitem.
    + apply process_item_watch in Hitem as (new1 & Hs1 & _ & Hidle).
      apply IH in Hrun as (new2 & Hs' & Hok & Hret).
      exists (new2 ++ new1). rewrite Hs', Hs1, app_assoc.
      rewrite watch_app by eauto. done.
    + injection Hrun as <- <-.
      apply process_item_watch in Hitem as (new1 & Hs1 & Hok & _).
      exists new1. split_and!; [done..|]. intros; done.
Qed.

(** *** What the loop leaves alone *)

Lemma process_item_frame index url s r s' :
  process_item w tmpdir total index url s = (r, s') →
  ∃ new, st_trace s' = new ++ st_trace s
    ∧ completions new = 0%nat
    ∧ (∀ dir, Did (Mkdtemp dir) ∉ new)
    ∧ (∀ p, under tmpdir p = false → st_fs s' !! p = st_fs s !! p).
Proof.
  intros Hrun. unfold_item.
  rewrite ffmpeg_output_cmd in Hrun.
  assert (∀ p b, under tmpdir p = false →
    <[video_path tmpdir index := File b]> (st_fs s) !! p = st_fs s !! p) as Hfs.
  { intros p b Hp. apply lookup_insert_ne. intros <-.
    unfold video_path in Hp. by rewrite under_path_join in Hp. }
  repeat (case_match; simplify_eq/=).
  all: added.
  all: autorewrite with texts; simpl.
  all: split_and!; [done| |by auto].
  all: intros dir Hin; repeat (apply elem_of_cons in Hin as [?|Hin]; [done|]).
  all: by apply elem_of_nil in Hin.
Qed.

Lemma process_urls_frame urls : ∀ index s r s',
  process_urls w tmpdir total index urls s = (r, s') →
  ∃ new, st_trace s' = new ++ st_trace s
    ∧ completions new = 0%nat
    ∧ (∀ dir, Did (Mkdtemp dir) ∉ new)
    ∧ (∀ p, under tmpdir p = false → st_fs s' !! p = st_fs s !! p).
Proof.
  induction urls as [|url rest IH]; intros index s r s' Hrun.
  - injection Hrun as <- <-. exists []. split_and!; [done..| |done].
    intros dir Hin. by apply elem_of_nil in Hin.
  - rewrite process_urls_cons in Hrun.
    destruct (process_item w tmpdir total index url s) as [[[]|x] s1] eqn:Hitem.
    + apply process_item_frame in Hitem as (new1 & Hs1 & Hc1 & Hm1 & Hf1).
      apply IH in Hrun as (new2 & Hs' & Hc2 & Hm2 & Hf2).
      exists (new2 ++ new1). rewrite Hs', Hs1, app_assoc, completions_app, Hc1, Hc2.
      split_and!; [done..| |].
      * intros dir [?|?]%elem_of_app; [by eapply Hm2|by eapply Hm1].
      * intros p Hp. by rewrite Hf2, Hf1.
    + injection Hrun as <- <-. by apply process_item_frame in Hitem.
Qed.

(** *** Exceptions that leave the loop *)




(** A retraction that fails ends the body of the loop, and the loop. *)
Lemma process_item_retraction index url s r s' :
  process_item w tmpdir total index url s = (r, s') →
  ∃ new, st_trace s' = new ++ st_trace s
    ∧ ∀ h x, Failed (DeleteMessage h) x ∈ new →
        r = Raise x ∧ ∃ older, new = Failed (DeleteMessage h) x :: older.
Proof.
  intros Hrun. unfold_item.
  repeat (case_match; simplify_eq/=).
  all: added.
  all: intros h x Hin; repeat (apply elem_of_cons in Hin as [?|Hin]; simplify_eq).
  all: try by apply elem_of_nil in Hin.
  all: eauto.
Qed.

Lemma process_urls_retraction urls : ∀ index s r s',
  process_urls w tmpdir total index urls s = (r, s') →
  ∃ new, st_trace s' = new ++ st_trace s
    ∧ ∀ h x, Failed (DeleteMessage h) x ∈ new →
        r = Raise x ∧ ∃ older, new = Failed (DeleteMessage h) x :: older.
Proof.
  induction urls as [|url rest IH]; intros index s r s' Hrun.
  - injection Hrun as <- <-. exists []. split; [done|].
    intros h x Hin. by apply elem_of_nil in Hin.
  - rewrite process_urls_cons in Hrun.
    destruct (process_item w tmpdir total index url s) as [[[]|y] s1] eqn:Hitem.
    + apply process_item_retraction in Hitem as (new1 & Hs1 & H1).
      apply IH in Hrun as (new2 & Hs' & H2).
      exists (new2 ++ new1). rewrite Hs', Hs1, app_assoc. split; [done|].
      intros h x [Hin|Hin]%elem_of_app.
      * destruct (H2 h x Hin) as [-> [older ->]]. split; [done|].
        by exists (older ++ new1).
      * by destruct (H1 h x Hin) as [? _].
    + injection Hrun as <- <-. by apply process_item_retraction in Hitem.
Qed.

End Loop.


(** ** The handler around the loop *)

Lemma added_app (new2 l new tr : list event) :
  l = new ++ tr → new2 ++ l = (new2 ++ new) ++ tr.
Proof. intros ->. by rewrite app_assoc. Qed.

Ltac added_more :=
  simpl; eexists; split;
  [repeat first [apply added_cons | apply added_app]; apply added_nil|].

Ltac unfold_batch :=
  unfold batch, run_batch, download_to_drive, read_lines, telegram, reply_text,
    raise, mbind, M_bind, mret, M_ret in *.

Ltac unfold_handler :=
  unfold handle_document, owner_only, handle_document_body, telegram, reply_text,
    raise, mbind, M_bind, mret, M_ret in *.

Section Wrapper.

Context (w : World).

(** How [with tempfile.TemporaryDirectory()] can end. *)
Lemma with_TemporaryDirectory_inv {A} (body : string → M A) s r s' :
  with_TemporaryDirectory w body s = (r, s') →
  (∃ dir, r = Raise file_exists_error
     ∧ s' = log (Failed (Mkdtemp dir) file_exists_error) s)
  ∨ (∃ dir s2, st_fs s !! dir = None
       ∧ body dir (log (Did (Mkdtemp dir)) (set_fs (<[dir := Dir]> (st_fs s)) s)) = (r, s2)
       ∧ s' = log (Did (RmTree dir)) (set_fs (rmtree dir (st_fs s2)) s2)).
Proof.
  unfold with_TemporaryDirectory. intros Hrun.
  destruct (st_fs s !! mkdtemp_name w (history s)) eqn:Hdir.
  - injection Hrun as <- <-. left. eauto.
  - destruct (body _ _) as [r2 s2] eqn:Hbody. injection Hrun as <- <-.
    right. eauto 10.
Qed.

(** How [handle_document] can end: without touching anything but the chat
    and the file service, or through the [with] block. *)
Lemma handle_document_inv update s r s' :
  handle_document w update s = (r, s') →
  (st_fs s' = st_fs s
     ∧ (∀ x, r = Raise x → exn_cls x ≠ CalledProcessError)
     ∧ ∃ new, st_trace s' = new ++ st_trace s ∧ Forall (λ e, idle_event e = true) new)
  ∨ (∃ doc name, txt_update update doc name
       ∧ with_TemporaryDirectory w (batch w (file_id doc))
           (log (Did (GetFile (file_id doc))) s) = (r, s')).
Proof.
  intros Hrun. unfold_handler.
  destruct update as [user msg]; simpl in *.
  repeat (case_match; simplify_eq/=).
  all: try (left; split; [done|]; split; [by intros ? [=<-]|]; added;
            repeat constructor; simpl; by autorewrite with texts).
  right. eexists _, _. split; [|done].
  unfold txt_update; simpl.
  match goal with H : bool_decide _ = false |- _ =>
    apply bool_decide_eq_false in H; rename H into Howner end.
  match goal with H : negb _ = false |- _ => apply negb_false_iff in H end.
  split_and!; try done.
  - destruct user as [[uid]|]; simpl in *; [|tauto].
    destruct (decide (uid = OWNER_ID)) as [->|]; [done|].
    exfalso. apply Howner. right. simpl. congruence.
  - destruct m as [doc']; simpl in *. by subst.
Qed.

End Wrapper.


(** ** The body of the [with] block *)

Section Batch.

Context (w : World).

Lemma txt_path_outside dir p : under dir p = false → path_join dir "urls.txt" ≠ p.
Proof. intros Hp <-. by rewrite under_path_join in Hp. Qed.

Lemma batch_watch fid dir s r s' :
  batch w fid dir s = (r, s') →
  ∃ new, st_trace s' = new ++ st_trace s ∧ watch new ≠ Broken.
Proof.
  intros Hrun. unfold_batch.
  repeat (case_match; simplify_eq/=).
  all: try match goal with
    | H : process_urls _ _ _ _ _ _ = _ |- _ =>
        apply process_urls_watch in H as (new & Hnew & Hok & Hidle);
        simpl in Hnew; try rewrite Hnew
    end.
  all: added_more.
  all: rewrite ?watch_cons.
  all: try (rewrite watch_app; [|rewrite ?watch_cons]).
  all: try (erewrite Hidle by done).
  all: unfold watch; simpl; autorewrite with texts; simpl; done.
Qed.

Lemma batch_frame fid dir s r s' :
  batch w fid dir s = (r, s') →
  ∃ new, st_trace s' = new ++ st_trace s
    ∧ (∀ d, Did (Mkdtemp d) ∉ new)
    ∧ (∀ p, under dir p = false → st_fs s' !! p = st_fs s !! p).
Proof.
  intros Hrun. unfold_batch.
  repeat (case_match; simplify_eq/=).
  all: try match goal with
    | H : process_urls _ _ _ _ _ _ = _ |- _ =>
        apply process_urls_frame in H as (new & Hnew & _ & Hmk & Hfs);
        simpl in Hnew, Hfs; try rewrite Hnew
    end.
  all: added_more.
  all: split.
  all: try (intros d Hin;
            repeat first [ apply elem_of_cons in Hin as [?|Hin]; [done|]
                         | apply elem_of_app in Hin as [Hin|Hin]; [by eapply Hmk|] ];
            by apply elem_of_nil in Hin).
  all: intros p Hp; rewrite ?Hfs by done.
  all: try done.
  all: by rewrite lookup_insert_ne by by apply txt_path_outside.
Qed.


Lemma batch_retraction fid dir s r s' :
  batch w fid dir s = (r, s') →
  ∃ new, st_trace s' = new ++ st_trace s
    ∧ ∀ h x, Failed (DeleteMessage h) x ∈ new →
        r = Raise x ∧ completions new = 0%nat
        ∧ ∃ older, new = Failed (DeleteMessage h) x :: older.
Proof.
  intros Hrun. unfold_batch.
  repeat (case_match; simplify_eq/=).
  all: try match goal with
    | H : process_urls _ _ _ _ _ _ = _ |- _ =>
        pose proof (process_urls_frame _ _ _ _ _ _ _ _ H) as (new' & Hnew' & Hc & _);
        apply process_urls_retraction in H as (new & Hnew & Hdel);
        simpl in Hnew, Hnew'; rewrite Hnew in Hnew';
        apply app_inv_tail in Hnew' as <-; try rewrite Hnew
    end.
  all: added_more.
  all: intros dh dx Hin.
  all: repeat first [ apply elem_of_cons in Hin as [?|Hin]; [done|]
                    | apply elem_of_app in Hin as [Hin|Hin];
                        [by destruct (Hdel dh dx Hin) as [? _]|] ].
  all: try by apply elem_of_nil in Hin.
  all: apply elem_of_app in Hin as [Hin|Hin];
    [|repeat (apply elem_of_cons in Hin as [?|Hin]; [done|]); by apply elem_of_nil in Hin].
  all: destruct (Hdel dh dx Hin) as [[= ->] [older ->]].
  all: split; [done|].
  all: rewrite completions_app, Hc; simpl; autorewrite with texts.
  all: split; [done|]; eexists; reflexivity.
Qed.

End Batch.


(** ** C5: the workspace *)

Lemma rmtree_lookup_gone dir (fs : gmap string node) p :
  p = dir ∨ under dir p = true → rmtree dir fs !! p = None.
Proof.
  intros Hp. apply map_lookup_filter_None. right. intros v _ [Hne Hout].
  simpl in *. destruct Hp as [->|Hp]; congruence.
Qed.

Lemma rmtree_subseteq dir (fs fs0 : gmap string node) :
  (∀ p, p ≠ dir → under dir p = false → fs !! p = fs0 !! p) →
  rmtree dir fs ⊆ fs0.
Proof.
  intros Hsame. apply map_subseteq_spec. intros p v Hp.
  apply map_lookup_filter_Some in Hp as [Hp [Hne Hout]]. simpl in *.
  by rewrite <- Hsame.
Qed.

Lemma added_unique (l new new' tr : list event) :
  l = new ++ tr → l = new' ++ tr → new' = new.
Proof. intros -> H. by apply app_inv_tail in H. Qed.

Lemma idle_not_mkdtemp new dir :
  Forall (λ e, idle_event e = true) new → Did (Mkdtemp dir) ∉ new.
Proof.
  intros Hall Hin. rewrite Forall_forall in Hall. by apply Hall in Hin.
Qed.

(** C5. Whatever way the handler ends, a workspace directory it created is
    gone with everything under it, and no file outlives the run: what is on
    disk afterwards was there before. *)
Theorem workspace_removed_on_every_exit w update s r s' new :
  handle_document w update s = (r, s') →
  st_trace s' = new ++ st_trace s →
  st_fs s' ⊆ st_fs s
  ∧ ∀ dir, Did (Mkdtemp dir) ∈ new →
      ∀ p, p = dir ∨ under dir p = true → st_fs s' !! p = None.
Proof.
  intros Hrun Hnew.
  apply handle_document_inv in Hrun as [(Hfs & _ & new' & Hnew' & Hidle)|Hwith].
  - rewrite Hfs. split; [done|]. intros dir Hin.
    rewrite (added_unique _ _ _ _ Hnew' Hnew) in Hin.
    by apply idle_not_mkdtemp in Hin.
  - destruct Hwith as (doc & name & _ & Hwith).
    apply with_TemporaryDirectory_inv in Hwith as [(dir & -> & ->)|(dir & s2 & Hfree & Hbody & ->)].
    + simpl in *. split; [done|]. intros d Hin.
      assert (new = [Failed (Mkdtemp dir) file_exists_error;
                     Did (GetFile (file_id doc))]) as ->.
      { apply (app_inv_tail (st_trace s)). by rewrite <- Hnew. }
      repeat (apply elem_of_cons in Hin as [?|Hin]; [done|]). by apply elem_of_nil in Hin.
    + apply batch_frame in Hbody as (newb & Hs2 & Hmk & Hsame). simpl in *.
      split.
      * apply rmtree_subseteq. intros p Hne Hout.
        rewrite Hsame by done. by rewrite lookup_insert_ne.
      * intros d Hin.
        assert (new = Did (RmTree dir) :: newb ++ [Did (Mkdtemp dir); Did (GetFile (file_id doc))]) as ->.
        { apply (app_inv_tail (st_trace s)). rewrite <- Hnew, Hs2. simpl.
          by rewrite <- app_assoc. }
        apply elem_of_cons in Hin as [?|Hin]; [done|].
        apply elem_of_app in Hin as [Hin|Hin]; [by apply Hmk in Hin|].
        apply elem_of_cons in Hin as [[= ->]|Hin].
        -- intros p Hp. by apply rmtree_lookup_gone.
        -- apply elem_of_cons in Hin as [?|Hin]; [done|]. by apply elem_of_nil in Hin.
Qed.

(** ** C6: one progress message at a time *)

Lemma progress_run_showing h mid :
  Did (DeleteMessage h) ∉ mid →
  progress_run (Showing h) mid = Showing h ∨ progress_run (Showing h) mid = Broken.
Proof.
  induction mid as [|e mid IH]; intros Hnot; [by left|].
  apply not_elem_of_cons in Hnot as [Hne Hnot].
  unfold progress_run in *. simpl.
  destruct e as [h' text pm|[]|]; simpl; auto.
  - destruct (_ || _); auto. right. apply progress_run_broken.
  - case_bool_decide; [congruence|auto].
Qed.

(** What the automaton accepts, said of positions in the trace. *)
Lemma progress_run_between pre h1 t1 pm1 mid h2 t2 pm2 post :
  progress_run Idle (pre ++ [Sent h1 t1 pm1] ++ mid ++ [Sent h2 t2 pm2] ++ post) ≠ Broken →
  is_progress_text t1 = true →
  is_progress_text t2 || is_completion_text t2 = true →
  Did (DeleteMessage h1) ∈ mid.
Proof.
  intros Hok Ht1 Ht2.
  destruct (decide (Did (DeleteMessage h1) ∈ mid)) as [|Hnot]; [done|].
  exfalso. apply Hok. rewrite !progress_run_app.
  assert (progress_run (progress_run Idle pre) [Sent h1 t1 pm1] = Showing h1
          ∨ progress_run (progress_run Idle pre) [Sent h1 t1 pm1] = Broken) as [->| ->].
  { unfold progress_run at 1 3. simpl.
    destruct (progress_run Idle pre); simpl; rewrite ?Ht1; simpl; auto. }
  - destruct (progress_run_showing h1 mid Hnot) as [-> | ->].
    + unfold progress_run at 2. simpl. rewrite Ht2. apply progress_run_broken.
    + by rewrite !progress_run_broken.
  - by rewrite !progress_run_broken.
Qed.

Lemma handle_document_watch w update s r s' :
  handle_document w update s = (r, s') →
  ∃ new, st_trace s' = new ++ st_trace s ∧ watch new ≠ Broken.
Proof.
  intros Hrun.
  apply handle_document_inv in Hrun as [(_ & _ & new & Hnew & Hidle)|Hwith].
  - exists new. split; [done|].
    assert (watch new = Idle) as ->; [|done].
    clear Hnew. induction Hidle as [|e new He _ IH]; [done|].
    rewrite watch_cons, IH.
    destruct e as [h text pm|[]|[]]; simpl in *; try done.
    by apply andb_true_iff in He as [->%negb_true_iff _].
  - destruct Hwith as (doc & name & _ & Hwith).
    apply with_TemporaryDirectory_inv in Hwith as [(dir & -> & ->)|(dir & s2 & Hfree & Hbody & ->)].
    + added. done.
    + apply batch_watch in Hbody as (newb & Hs2 & Hok). simpl in *.
      rewrite Hs2. added_more.
      rewrite watch_cons, watch_app by done. by destruct (watch newb).
Qed.

(** C6. In every run, between a progress message and the next progress
    message, and between a progress message and the completion notice, the
    earlier progress message is deleted. *)
Theorem progress_retracted_before_next w update s r s'
    pre h1 t1 pm1 mid h2 t2 pm2 post :
  handle_document w update s = (r, s') →
  history s' = history s ++ pre ++ [Sent h1 t1 pm1] ++ mid ++ [Sent h2 t2 pm2] ++ post →
  is_progress_text t1 = true →
  is_progress_text t2 = true ∨ t2 = completion_text →
  Did (DeleteMessage h1) ∈ mid.
Proof.
  intros Hrun Hhist Ht1 Ht2.
  apply handle_document_watch in Hrun as (new & Hnew & Hok).
  unfold history in Hhist. rewrite Hnew, rev_app_distr in Hhist.
  apply app_inv_head in Hhist. unfold watch in Hok. rewrite Hhist in Hok.
  eapply progress_run_between; [done..|].
  destruct Ht2 as [-> | ->]; [done|]. by rewrite orb_true_r.
Qed.

(** ** C8: a retraction that fails *)

(** C8, as amended. A retraction that fails is not caught: the exception
    ends the run, the failed call is the handler's last before the workspace
    is removed, and no completion notice is sent. *)
Theorem retraction_failure_ends_batch w update s r s' new h x :
  handle_document w update s = (r, s') →
  st_trace s' = new ++ st_trace s →
  Failed (DeleteMessage h) x ∈ new →
  r = Raise x ∧ completions new = 0%nat
  ∧ ∃ dir older, new = Did (RmTree dir) :: Failed (DeleteMessage h) x :: older.
Proof.
  intros Hrun Hnew Hin.
  apply handle_document_inv in Hrun as [(_ & _ & new' & Hnew' & Hidle)|Hwith].
  - rewrite (added_unique _ _ _ _ Hnew' Hnew) in Hin.
    rewrite Forall_forall in Hidle. by apply Hidle in Hin.
  - destruct Hwith as (doc & name & _ & Hwith).
    apply with_TemporaryDirectory_inv in Hwith as [(dir & -> & ->)|(dir & s2 & Hfree & Hbody & ->)].
    + assert (new = [Failed (Mkdtemp dir) file_exists_error;
                     Did (GetFile (file_id doc))]) as ->.
      { apply (app_inv_tail (st_trace s)). by rewrite <- Hnew. }
      repeat (apply elem_of_cons in Hin as [?|Hin]; [done|]). by apply elem_of_nil in Hin.
    + apply batch_retraction in Hbody as (newb & Hs2 & Hdel). simpl in *.
      assert (new = Did (RmTree dir) :: newb ++ [Did (Mkdtemp dir); Did (GetFile (file_id doc))]) as ->.
      { apply (app_inv_tail (st_trace s)). rewrite <- Hnew, Hs2. simpl.
        by rewrite <- app_assoc. }
      apply elem_of_cons in Hin as [?|Hin]; [done|].
      apply elem_of_app in Hin as [Hin|Hin].
      * destruct (Hdel h x Hin) as (-> & Hc & older & ->).
        split; [done|]. split.
        -- simpl in *. by rewrite completions_app, Hc.
        -- by eexists _, _.
      * repeat (apply elem_of_cons in Hin as [?|Hin]; [done|]). by apply elem_of_nil in Hin.
Qed.



(** ** C1, C2, C7: what a failure does to the loop *)

Section Failures.

Context (w : World) (tmpdir : string) (total : nat).

Lemma subprocess_run_check_raises cmd s x s3 :
  subprocess_run_check w cmd s = (Raise x, s3) →
  st_trace s3 = Failed (SubprocessRun cmd) x :: st_trace s.
Proof.
  unfold subprocess_run_check. intros H.
  repeat (case_match; simplify_eq/=); done.
Qed.

Lemma subprocess_run_check_returns cmd s s3 :
  subprocess_run_check w cmd s = (Ret tt, s3) →
  st_trace s3 = Did (SubprocessRun cmd) :: st_trace s.
Proof.
  unfold subprocess_run_check. intros H.
  repeat (case_match; simplify_eq/=); done.
Qed.

Lemma reply_text_ok text pm s :
  transport_ok w →
  reply_text w text pm s = (Ret (length (st_trace s)), log (Sent (length (st_trace s)) text pm) s).
Proof. intros Ht. unfold reply_text. by rewrite Ht. Qed.

Lemma telegram_ok c s :
  transport_ok w → control_call c = true →
  telegram w c s = (Ret tt, log (Did c) s).
Proof. intros Ht Hc. unfold telegram. by rewrite Ht. Qed.

Lemma transcode_step_failed url path h s x s3 :
  transport_ok w →
  subprocess_run_check w (ffmpeg_cmd url path)
    (log (Did (SendChatAction OWNER_ID UPLOAD_VIDEO)) s) = (Raise x, s3) →
  exn_cls x = CalledProcessError →
  transcode_step w url path h s =
    (Ret false,
     log (Did (DeleteMessage h))
       (log (Sent (length (st_trace s3)) (transcode_failed_text url) None) s3)).
Proof.
  intros Ht Hrun Hcls. unfold transcode_step, try_except, mbind, M_bind.
  rewrite telegram_ok, Hrun by done. unfold isinstance.
  rewrite bool_decide_eq_true_2 by done.
  by rewrite reply_text_ok, telegram_ok by done.
Qed.

Lemma transcode_step_ok url path h s s3 :
  transport_ok w →
  subprocess_run_check w (ffmpeg_cmd url path)
    (log (Did (SendChatAction OWNER_ID UPLOAD_VIDEO)) s) = (Ret tt, s3) →
  transcode_step w url path h s = (Ret true, s3).
Proof.
  intros Ht Hrun. unfold transcode_step, try_except, mbind, M_bind.
  by rewrite telegram_ok, Hrun by done.
Qed.

Lemma delivery_step_failed index path s x s4 :
  transport_ok w →
  send_video_file w index total path s = (Raise x, s4) →
  delivery_step w index total path s =
    (Ret tt, log (Sent (length (st_trace s4)) (delivery_failed_text index x) None) s4).
Proof.
  intros Ht Hsend. unfold delivery_step, try_except. rewrite Hsend. simpl.
  unfold mbind, M_bind. by rewrite reply_text_ok by done.
Qed.

(** The body of the loop when the tool exits with an error. *)
Lemma process_item_transcode_failed index url s x s3 :
  transport_ok w →
  subprocess_run_check w (ffmpeg_cmd url (video_path tmpdir index))
    (item_started s index total url) = (Raise x, s3) →
  exn_cls x = CalledProcessError →
  process_item w tmpdir total index url s =
    (Ret tt,
     log (Did (DeleteMessage (length (st_trace s))))
       (log (Sent (length (st_trace s3)) (transcode_failed_text url) None) s3)).
Proof.
  intros Ht Hrun Hcls. unfold process_item, mbind, M_bind.
  rewrite reply_text_ok by done.
  by rewrite (transcode_step_failed _ _ _ _ _ _ Ht Hrun Hcls).
Qed.

(** The body of the loop when the tool succeeds and the delivery fails. *)
Lemma process_item_delivery_failed index url s s3 x s4 :
  transport_ok w →
  subprocess_run_check w (ffmpeg_cmd url (video_path tmpdir index))
    (item_started s index total url) = (Ret tt, s3) →
  send_video_file w index total (video_path tmpdir index) s3 = (Raise x, s4) →
  process_item w tmpdir total index url s =
    (Ret tt,
     log (Did (DeleteMessage (length (st_trace s))))
       (log (Sent (length (st_trace s4)) (delivery_failed_text index x) None) s4)).
Proof.
  intros Ht Hrun Hsend. unfold process_item, mbind, M_bind.
  rewrite reply_text_ok by done.
  rewrite (transcode_step_ok _ _ _ _ _ Ht Hrun).
  rewrite (delivery_step_failed _ _ _ _ _ Ht Hsend).
  by rewrite telegram_ok by done.
Qed.

Lemma send_video_file_raises index path s x s4 :
  send_video_file w index total path s = (Raise x, s4) →
  st_trace s4 = Failed (OpenRb path) x :: st_trace s
  ∨ st_trace s4 =
      Failed (SendVideo OWNER_ID path (caption_text index total) true) x
      :: Did (OpenRb path) :: st_trace s.
Proof.
  unfold send_video_file, open_rb, telegram, mbind, M_bind. intros H.
  repeat (case_match; simplify_eq/=); auto.
Qed.







End Failures.


(** ** C4: one outcome for each URL, and one completion notice *)

Lemma no_nul_app a b : no_nul (a +:+ b) ↔ no_nul a ∧ no_nul b.
Proof. unfold no_nul. by rewrite chars_app, not_elem_of_app. Qed.

Lemma pretty_N_go_no_nul x : ∀ s, no_nul s → no_nul (pretty_N_go x s).
Proof.
  induction (N.lt_wf_0 x) as [x _ IH]; intros s Hs.
  assert (x = 0 ∨ 0 < x)%N as [->|Hx] by lia.
  - by rewrite pretty_N_go_0.
  - rewrite pretty_N_go_step by done. apply IH; [by apply N.div_lt|].
    unfold no_nul in *. simpl. apply not_elem_of_cons. split; [|done].
    unfold pretty_N_char. by repeat case_match.
Qed.

Lemma pretty_nat_no_nul (n : nat) : no_nul (pretty n).
Proof.
  unfold pretty, pretty_nat, pretty, pretty_N. case_decide.
  - apply (bool_decide_unpack _). by vm_compute.
  - apply pretty_N_go_no_nul. unfold no_nul. simpl. apply not_elem_of_nil.
Qed.

Lemma has_nul_no_nul a : no_nul a → has_nul a = false.
Proof.
  unfold no_nul, has_nul. induction (chars a) as [|c l IH]; [done|].
  intros [Hc Hl]%not_elem_of_cons. cbn [existsb]. rewrite IH by done.
  by destruct (Ascii.eqb_spec "000" c).
Qed.

(** The command line of an item holds no NUL character when the URL and
    the workspace name hold none. *)
Lemma ffmpeg_cmd_no_nul url tmpdir index :
  no_nul url → no_nul tmpdir → Forall no_nul (ffmpeg_cmd url (video_path tmpdir index)).
Proof.
  intros Hu Hd. unfold ffmpeg_cmd, video_path, path_join.
  repeat apply Forall_cons_2; try apply Forall_nil_2; try done.
  all: try (apply (bool_decide_unpack _); by vm_compute).
  rewrite !no_nul_app. split_and!; try done; try apply pretty_nat_no_nul.
  all: apply (bool_decide_unpack _); by vm_compute.
Qed.

Lemma process_no_nul w past cmd : Forall no_nul cmd → process w past cmd = tool w past cmd.
Proof.
  intros H. unfold process.
  assert (existsb has_nul cmd = false) as ->; [|done].
  induction H as [|a cmd Ha _ IH]; [done|]. simpl. by rewrite has_nul_no_nul, IH.
Qed.

Section Recorded.

Context (w : World) (tmpdir : string) (total : nat).



End Recorded.

Section Outcomes.

Context (w : World) (tmpdir : string) (total : nat).
Hypothesis transport : transport_ok w.
Hypothesis launches : tool_launches w.
Hypothesis plain_tmpdir : no_nul tmpdir.

(** With the chat answering and the tool starting, the body of the loop
    always returns, and settles the item one way or another. *)
Lemma process_item_settles index url s :
  no_nul url →
  ∃ s' o, process_item w tmpdir total index url s = (Ret tt, s')
    ∧ results (st_trace s') = results (st_trace s) ++ [(url, o)]
    ∧ completions (st_trace s') = completions (st_trace s).
Proof.
  intros Hurl.
  destruct (subprocess_run_check w (ffmpeg_cmd url (video_path tmpdir index))
              (item_started s index total url)) as [[[]|x] s3] eqn:Hrun.
  - pose proof (subprocess_run_check_returns _ _ _ _ Hrun) as Hs3.
    destruct (send_video_file w index total (video_path tmpdir index) s3)
      as [[[]|x] s4] eqn:Hsend.
    + exists (log (Did (DeleteMessage (length (st_trace s)))) s4), Delivered.
      assert (st_trace s4 =
                Did (SendVideo OWNER_ID (video_path tmpdir index) (caption_text index total) true)
                :: Did (OpenRb (video_path tmpdir index)) :: st_trace s3) as Hs4.
      { unfold send_video_file, open_rb, telegram, mbind, M_bind in Hsend.
        repeat (case_match; simplify_eq/=); done. }
      split_and!.
      * unfold process_item, mbind, M_bind. rewrite reply_text_ok by done.
        rewrite (transcode_step_ok _ _ _ _ _ _ transport Hrun).
        unfold delivery_step, try_except. rewrite Hsend.
        by rewrite telegram_ok by done.
      * simpl. rewrite Hs4, Hs3. simpl. autorewrite with texts.
        rewrite ffmpeg_input_cmd. by rewrite !app_nil_r.
      * simpl. rewrite Hs4, Hs3. simpl. by autorewrite with texts.
    + eexists _, (DeliveryFailed (exn_str x)).
      split; [by eapply process_item_delivery_failed|].
      apply send_video_file_raises in Hsend as [Hs4|Hs4].
      all: simpl; rewrite Hs4, Hs3; simpl; autorewrite with texts.
      all: rewrite ffmpeg_input_cmd; by rewrite !app_nil_r.
  - pose proof (subprocess_run_check_raises _ _ _ _ _ Hrun) as Hs3.
    assert (exn_cls x = CalledProcessError) as Hcls.
    { unfold subprocess_run_check in Hrun.
      destruct (launches (history (item_started s index total url))
                  (ffmpeg_cmd url (video_path tmpdir index))) as (code & out & Hp).
      { by apply ffmpeg_cmd_no_nul. }
      rewrite Hp in Hrun. case_bool_decide; by simplify_eq. }
    eexists _, (TranscodeFailed (exn_str x)).
    split; [by eapply process_item_transcode_failed|].
    simpl. rewrite Hs3. simpl. autorewrite with texts.
    unfold isinstance. rewrite bool_decide_eq_true_2 by done.
    rewrite ffmpeg_input_cmd. by rewrite !app_nil_r.
Qed.

Lemma process_urls_settles urls : ∀ index s,
  Forall no_nul urls →
  ∃ s' outcomes, process_urls w tmpdir total index urls s = (Ret tt, s')
    ∧ length outcomes = length urls
    ∧ results (st_trace s') = results (st_trace s) ++ zip urls outcomes
    ∧ completions (st_trace s') = completions (st_trace s).
Proof.
  induction urls as [|url rest IH]; intros index s Hplain.
  - exists s, []. by rewrite app_nil_r.
  - apply Forall_cons in Hplain as [Hurl Hrest].
    destruct (process_item_settles index url s Hurl) as (s1 & o & Hitem & Hres1 & Hc1).
    destruct (IH (S index) s1 Hrest) as (s' & os & Hloop & Hlen & Hres & Hc).
    exists s', (o :: os). rewrite process_urls_cons, Hitem.
    split_and!; [done|by simpl; f_equal|..].
    + by rewrite Hres, Hres1, <- app_assoc.
    + by rewrite Hc.
Qed.

End Outcomes.




(** ** C3 and C10: runs that process nothing *)

Lemma handle_document_accepts w update doc name s :
  txt_update update doc name →
  handle_document w update s =
    (_ ← telegram w (GetFile (file_id doc));
     with_TemporaryDirectory w (batch w (file_id doc))) s.
Proof.
  intros (Hu & Hm & Hn & He). unfold handle_document, owner_only, handle_document_body.
  rewrite Hu, Hm. simpl. by rewrite Hn, He.
Qed.

(** The body of the [with] block when the list holds no valid URL. *)
Lemma batch_without_urls w fid dir s r s' :
  filter_urls (readlines (document_bytes w fid)) = [] →
  batch w fid dir s = (r, s') →
  let path := path_join dir "urls.txt" in
  (∃ x, r = Raise x
     ∧ (st_trace s' = Failed (DownloadToDrive fid path) x :: st_trace s
        ∨ st_trace s' = Failed (ReadLines path) x
                        :: Did (DownloadToDrive fid path) :: st_trace s))
  ∨ (∃ reply, st_trace s' = reply :: Did (ReadLines path)
                           :: Did (DownloadToDrive fid path) :: st_trace s
       ∧ (reply = Sent (2 + length (st_trace s)) no_valid_urls_text None ∧ r = Ret tt
          ∨ ∃ x, reply = Failed (ReplyText no_valid_urls_text None) x ∧ r = Raise x)).
Proof.
  intros Hnone Hrun path. unfold batch, download_to_drive, read_lines, mbind, M_bind in Hrun.
  fold path in Hrun.
  destruct (telegram_error w (history s) (DownloadToDrive fid path)) as [msg|] eqn:Hd.
  { injection Hrun as <- <-. left. eauto. }
  simpl in Hrun. rewrite lookup_insert_eq in Hrun.
  destruct (decode_error w (document_bytes w fid)) as [msg|] eqn:Hdec.
  { injection Hrun as <- <-. left. eauto. }
  rewrite Hnone in Hrun. unfold run_batch, reply_text, mbind, M_bind, mret, M_ret in Hrun.
  right. repeat (case_match; simplify_eq/=); eauto 10.
Qed.

(** C3, as amended. When the list holds no valid URL, no item is processed:
    there is no progress message, no transcode, no delivery. The workspace
    has been created by then, to receive the list; once the list is read
    the handler answers with the notice that no valid URL was found, and
    the workspace is removed. *)
Theorem no_valid_urls_no_items w update doc name s r s' :
  txt_update update doc name →
  filter_urls (readlines (document_bytes w (file_id doc))) = [] →
  handle_document w update s = (r, s') →
  ∃ new, st_trace s' = new ++ st_trace s
    ∧ Forall (λ e, item_event e = false) new
    ∧ ∀ path, Did (ReadLines path) ∈ new →
        ∃ dir reply,
          new = [Did (RmTree dir); reply; Did (ReadLines path);
                 Did (DownloadToDrive (file_id doc) path);
                 Did (Mkdtemp dir); Did (GetFile (file_id doc))]
          ∧ path = path_join dir "urls.txt"
          ∧ ((∃ h, reply = Sent h no_valid_urls_text None) ∧ r = Ret tt
             ∨ ∃ x, reply = Failed (ReplyText no_valid_urls_text None) x ∧ r = Raise x)
          ∧ st_fs s' !! dir = None ∧ st_fs s' !! path = None.
Proof.
  intros Htxt Hnone Hrun.
  rewrite (handle_document_accepts _ _ _ _ _ Htxt) in Hrun.
  unfold mbind, M_bind, telegram in Hrun.
  destruct (telegram_error w (history s) (GetFile (file_id doc))) as [msg|] eqn:Hg.
  { injection Hrun as <- <-. added. split; [by repeat constructor|].
    intros path Hin. repeat (apply elem_of_cons in Hin as [?|Hin]; [done|]).
    by apply elem_of_nil in Hin. }
  apply with_TemporaryDirectory_inv in Hrun as [(dir & -> & ->)|(dir & s2 & Hfree & Hbody & ->)].
  { added. split; [by repeat constructor|].
    intros path Hin. repeat (apply elem_of_cons in Hin as [?|Hin]; [done|]).
    by apply elem_of_nil in Hin. }
  apply (batch_without_urls _ _ _ _ _ _ Hnone) in Hbody
    as [(x & -> & [Hs2|Hs2])|(reply & Hs2 & Hreply)]; simpl in *; rewrite Hs2.
  - added. split; [by repeat constructor|].
    intros path Hin. repeat (apply elem_of_cons in Hin as [?|Hin]; [done|]).
    by apply elem_of_nil in Hin.
  - added. split; [by repeat constructor|].
    intros path Hin. repeat (apply elem_of_cons in Hin as [?|Hin]; [done|]).
    by apply elem_of_nil in Hin.
  - added. split.
    { repeat constructor. destruct Hreply as [[-> _]|(x & -> & _)]; simpl;
        by autorewrite with texts. }
    intros path Hin.
    assert (path = path_join dir "urls.txt") as ->.
    { destruct Hreply as [[-> _]|(x & -> & _)];
        repeat (apply elem_of_cons in Hin as [?|Hin]; simplify_eq; try done);
        by apply elem_of_nil in Hin. }
    exists dir, reply. split_and!; [done..| | |].
    + destruct Hreply as [[-> ->]|(x & -> & ->)]; eauto.
    + apply rmtree_lookup_gone. by left.
    + apply rmtree_lookup_gone. right. apply under_path_join.
Qed.

(** C10. A message without a document, or with a document whose name does
    not end in .txt, gets one reply and nothing else is done: the trace grows
    by that reply alone and the disk is untouched. For the owner the reply
    is the warning that fits the case. *)
Theorem turned_away_without_work w update msg s r s' :
  message update = Some msg →
  turned_away msg →
  handle_document w update s = (r, s') →
  st_fs s' = st_fs s
  ∧ ∃ text reply, st_trace s' = reply :: st_trace s
      ∧ ((∃ h, reply = Sent h text None) ∧ r = Ret tt
         ∨ ∃ x, reply = Failed (ReplyText text None) x ∧ r = Raise x)
      ∧ (effective_user update = Some {| id := OWNER_ID |} →
           text = match document msg with
                  | None => no_document_text
                  | Some _ => not_txt_text
                  end).
Proof.
  intros Hmsg Haway Hrun. unfold_handler.
  destruct update as [user m]; simpl in *. subst m.
  assert (∀ doc name, document msg = Some doc → file_name doc = Some name →
            negb (endswith (lower name) ".txt") = true) as Hname.
  { intros doc name Hd Hn. destruct Haway as [?|(doc' & name' & ? & ? & Hends)]; [congruence|].
    simplify_eq. apply negb_true_iff. apply not_true_iff_false.
    by rewrite endswith_spec. }
  assert (∀ doc, document msg = Some doc → is_Some (file_name doc)) as Hsome.
  { intros doc Hd. destruct Haway as [?|(doc' & name' & ? & ? & _)]; [congruence|].
    simplify_eq. eauto. }
  repeat (case_match; simplify_eq/=).
  all: try (match goal with H : file_name ?d = None |- _ =>
              destruct (Hsome d) as [? ?]; [done|congruence] end).
  all: try (match goal with H : negb _ = false |- _ =>
              erewrite Hname in H by done; done end).
  all: split; [done|]; eexists _, _; split; [done|].
  all: split; [eauto|].
  all: try (intros [= ->]; exfalso;
            match goal with H : bool_decide _ = true |- _ =>
              apply bool_decide_eq_true in H as [?|?]; done end).
  all: done.
Qed.


(** ** The theorems at work on sample runs *)

Lemma sample_transport_ok list : transport_ok (sample_world list).
Proof. intros past c _. reflexivity. Defined.

Lemma sample_tool_launches list : tool_launches (sample_world list).
Proof.
  intros past cmd Hcmd. rewrite process_no_nul by done.
  change (tool (sample_world list) past cmd)
    with (if startswith (ffmpeg_input cmd) "bad"
          then Exited 1 None else Exited 0 (Some "mp4")).
  destruct (startswith (ffmpeg_input cmd) "bad"); eexists _, _; reflexivity.
Defined.



Lemma owner_update_txt : txt_update (owner_update "list.TXT")
  {| file_id := "F1"; file_name := Some "list.TXT" |} "list.TXT".
Proof. by repeat split. Defined.

(** The trace of the sample run of section 8 of the specification. *)
Example sample_run :
  let run := handle_document (sample_world sample_list) (owner_update "list.TXT") initial in
  run.1 = Ret tt
  ∧ results (st_trace run.2)
    = [("a.mpd", Delivered); ("b.M3U8", Delivered);
       ("bad.mpd", TranscodeFailed
          (exn_str (called_process_error
             (ffmpeg_cmd "bad.mpd" (video_path "/tmp/tmpk3x" 3)) 1)))]
  ∧ completions (st_trace run.2) = 1%nat
  ∧ st_fs run.2 = ∅.
Proof. vm_compute. done. Qed.



Lemma no_valid_urls_no_items_witness :
  let run := handle_document (sample_world "notes") (owner_update "list.TXT") initial in
  ∃ new, st_trace run.2 = new ++ st_trace initial
    ∧ Forall (λ e, item_event e = false) new
    ∧ ∀ path, Did (ReadLines path) ∈ new →
        ∃ dir reply,
          new = [Did (RmTree dir); reply; Did (ReadLines path);
                 Did (DownloadToDrive "F1" path);
                 Did (Mkdtemp dir); Did (GetFile "F1")]
          ∧ path = path_join dir "urls.txt"
          ∧ ((∃ h, reply = Sent h no_valid_urls_text None) ∧ run.1 = Ret tt
             ∨ ∃ x, reply = Failed (ReplyText no_valid_urls_text None) x ∧ run.1 = Raise x)
          ∧ st_fs run.2 !! dir = None ∧ st_fs run.2 !! path = None.
Proof.
  intros run.
  apply (no_valid_urls_no_items (sample_world "notes") (owner_update "list.TXT")
           {| file_id := "F1"; file_name := Some "list.TXT" |} "list.TXT" initial).
  - apply owner_update_txt.
  - reflexivity.
  - subst run. by destruct (handle_document _ _ _).
Defined.


Lemma workspace_removed_on_every_exit_witness :
  let run := handle_document (world_message_gone sample_list) (owner_update "list.TXT") initial in
  st_fs run.2 ⊆ st_fs initial
  ∧ ∀ dir, Did (Mkdtemp dir) ∈ st_trace run.2 →
      ∀ p, p = dir ∨ under dir p = true → st_fs run.2 !! p = None.
Proof.
  intros run.
  apply (workspace_removed_on_every_exit (world_message_gone sample_list)
           (owner_update "list.TXT") initial run.1 run.2 (st_trace run.2)).
  - subst run. by destruct (handle_document _ _ _).
  - simpl. by rewrite app_nil_r.
Defined.

Lemma progress_retracted_before_next_witness :
  let run := handle_document (sample_world sample_list) (owner_update "list.TXT") initial in
  Did (DeleteMessage 5) ∈ take 5 (drop 6 (history run.2)).
Proof.
  intros run.
  apply (progress_retracted_before_next (sample_world sample_list)
           (owner_update "list.TXT") initial run.1 run.2
           (take 5 (history run.2)) 5 (progress_text 1 3 "a.mpd") None
           (take 5 (drop 6 (history run.2)))
           11 (progress_text 2 3 "b.M3U8") None
           (drop 12 (history run.2))).
  - subst run. by destruct (handle_document _ _ _).
  - vm_compute. reflexivity.
  - reflexivity.
  - left. reflexivity.
Defined.


Lemma retraction_failure_ends_batch_witness :
  let run := handle_document (world_message_gone sample_list) (owner_update "list.TXT") initial in
  let x := Exn TelegramError "Message to delete not found" in
  run.1 = Raise x ∧ completions (st_trace run.2) = 0%nat
  ∧ ∃ dir older, st_trace run.2 = Did (RmTree dir) :: Failed (DeleteMessage 5) x :: older.
Proof.
  intros run x.
  apply (retraction_failure_ends_batch (world_message_gone sample_list)
           (owner_update "list.TXT") initial run.1 run.2 (st_trace run.2) 5 x).
  - subst run. by destruct (handle_document _ _ _).
  - simpl. by rewrite app_nil_r.
  - vm_compute. apply list_elem_of_further, list_elem_of_here.
Defined.

Lemma turned_away_without_work_witness :
  let update := owner_update "movie.mp4" in
  let run := handle_document (sample_world sample_list) update initial in
  st_fs run.2 = st_fs initial
  ∧ ∃ text reply, st_trace run.2 = reply :: st_trace initial
      ∧ ((∃ h, reply = Sent h text None) ∧ run.1 = Ret tt
         ∨ ∃ x, reply = Failed (ReplyText text None) x ∧ run.1 = Raise x)
      ∧ (effective_user update = Some {| id := OWNER_ID |} → text = not_txt_text).
Proof.
  intros update run.
  apply (turned_away_without_work (sample_world sample_list) update
           {| document := Some {| file_id := "F1"; file_name := Some "movie.mp4" |} |}
           initial run.1 run.2).
  - reflexivity.
  - right. eexists _, _. split; [reflexivity|]. split; [reflexivity|].
    intros H. apply endswith_spec in H. discriminate H.
  - subst run. by destruct (handle_document _ _ _).
Defined.

(** ** Where the code departs from the stated claims *)




(** C3 as stated fails: a list without a valid URL still gets its workspace. *)
Lemma workspace_created_without_urls :
  ¬ no_workspace_without_urls (sample_world "notes") (owner_update "list.TXT").
Proof.
  intros H.
  apply (H {| file_id := "F1"; file_name := Some "list.TXT" |} "list.TXT"
           owner_update_txt eq_refl "/tmp/tmpk3x").
  vm_compute. do 4 apply list_elem_of_further. apply list_elem_of_here.
Qed.


(** C8 as stated fails: when the progress message cannot be deleted the run
    ends with the error, and no completion notice is sent. *)
Lemma retraction_failure_ends_run :
  ¬ retraction_failure_swallowed (world_message_gone sample_list) (owner_update "list.TXT").
Proof.
  intros H.
  destruct (H 5%nat (Exn TelegramError "Message to delete not found")) as [Hret _].
  - vm_compute. apply list_elem_of_further, list_elem_of_here.
  - vm_compute in Hret. discriminate Hret.
Qed.

(** Runs of these worlds, event by event. *)

Example run_without_urls :
  let run := handle_document (sample_world "notes") (owner_update "list.TXT") initial in
  run.1 = Ret tt
  ∧ history run.2
    = [Did (GetFile "F1");
       Did (Mkdtemp "/tmp/tmpk3x");
       Did (DownloadToDrive "F1" "/tmp/tmpk3x/urls.txt");
       Did (ReadLines "/tmp/tmpk3x/urls.txt");
       Sent 4 no_valid_urls_text None;
       Did (RmTree "/tmp/tmpk3x")].
Proof. vm_compute. done. Qed.

Example run_without_tool :
  let run := handle_document (world_without_tool sample_list) (owner_update "list.TXT") initial in
  let x := Exn OSError "[Errno 2] No such file or directory: 'ffmpeg'" in
  run.1 = Raise x
  ∧ history run.2
    = [Did (GetFile "F1");
       Did (Mkdtemp "/tmp/tmpk3x");
       Did (DownloadToDrive "F1" "/tmp/tmpk3x/urls.txt");
       Did (ReadLines "/tmp/tmpk3x/urls.txt");
       Sent 4 (found_text 3) (Some "Markdown");
       Sent 5 (progress_text 1 3 "a.mpd") None;
       Did (SendChatAction OWNER_ID UPLOAD_VIDEO);
       Failed (SubprocessRun (ffmpeg_cmd "a.mpd" "/tmp/tmpk3x/video_1.mp4")) x;
       Did (RmTree "/tmp/tmpk3x")].
Proof. vm_compute. done. Qed.

Example run_with_two_urls_and_no_tool :
  let run := handle_document (world_without_tool ("a.mpd" +:+ NL +:+ "b.mpd"))
               (owner_update "list.txt") initial in
  let x := Exn OSError "[Errno 2] No such file or directory: 'ffmpeg'" in
  run.1 = Raise x
  ∧ history run.2
    = [Did (GetFile "F1");
       Did (Mkdtemp "/tmp/tmpk3x");
       Did (DownloadToDrive "F1" "/tmp/tmpk3x/urls.txt");
       Did (ReadLines "/tmp/tmpk3x/urls.txt");
       Sent 4 (found_text 2) (Some "Markdown");
       Sent 5 (progress_text 1 2 "a.mpd") None;
       Did (SendChatAction OWNER_ID UPLOAD_VIDEO);
       Failed (SubprocessRun (ffmpeg_cmd "a.mpd" "/tmp/tmpk3x/video_1.mp4")) x;
       Did (RmTree "/tmp/tmpk3x")].
Proof. vm_compute. done. Qed.

Example run_with_upload_refused_and_message_gone :
  let run := handle_document (world_refused_and_gone sample_list)
               (owner_update "list.TXT") initial in
  let x := Exn TelegramError "Request Entity Too Large" in
  let y := Exn TelegramError "Message to delete not found" in
  run.1 = Raise y
  ∧ history run.2
    = [Did (GetFile "F1");
       Did (Mkdtemp "/tmp/tmpk3x");
       Did (DownloadToDrive "F1" "/tmp/tmpk3x/urls.txt");
       Did (ReadLines "/tmp/tmpk3x/urls.txt");
       Sent 4 (found_text 3) (Some "Markdown");
       Sent 5 (progress_text 1 3 "a.mpd") None;
       Did (SendChatAction OWNER_ID UPLOAD_VIDEO);
       Did (SubprocessRun (ffmpeg_cmd "a.mpd" "/tmp/tmpk3x/video_1.mp4"));
       Did (OpenRb "/tmp/tmpk3x/video_1.mp4");
       Failed (SendVideo OWNER_ID "/tmp/tmpk3x/video_1.mp4" (caption_text 1 3) true) x;
       Sent 10 (delivery_failed_text 1 x) None;
       Failed (DeleteMessage 5) y;
       Did (RmTree "/tmp/tmpk3x")].
Proof. vm_compute. done. Qed.

Example batch_with_message_gone :
  let run := run_batch (world_message_gone sample_list) "/tmp/tmpk3x" ["a.mpd"; "b.mpd"]
               initial in
  run.1 = Raise (Exn TelegramError "Message to delete not found")
  ∧ results (st_trace run.2) = [("a.mpd", Delivered)]
  ∧ completions (st_trace run.2) = 0%nat.
Proof. vm_compute. done. Qed.

(** A URL with a NUL character in it is not handed to the tool. *)
Example run_with_nul_in_url :
  let url := "a" +:+ String "000" ".mpd" in
  let w := sample_world url in
  process w [] (ffmpeg_cmd url "/tmp/tmpk3x/video_1.mp4") = NotLaunched "embedded null byte"
  ∧ (handle_document w (owner_update "list.txt") initial).1
    = Raise (Exn OSError "embedded null byte").
Proof. vm_compute. done. Qed.

Example run_with_message_gone :
  let run := handle_document (world_message_gone sample_list) (owner_update "list.TXT") initial in
  let x := Exn TelegramError "Message to delete not found" in
  run.1 = Raise x
  ∧ history run.2
    = [Did (GetFile "F1");
       Did (Mkdtemp "/tmp/tmpk3x");
       Did (DownloadToDrive "F1" "/tmp/tmpk3x/urls.txt");
       Did (ReadLines "/tmp/tmpk3x/urls.txt");
       Sent 4 (found_text 3) (Some "Markdown");
       Sent 5 (progress_text 1 3 "a.mpd") None;
       Did (SendChatAction OWNER_ID UPLOAD_VIDEO);
       Did (SubprocessRun (ffmpeg_cmd "a.mpd" "/tmp/tmpk3x/video_1.mp4"));
       Did (OpenRb "/tmp/tmpk3x/video_1.mp4");
       Did (SendVideo OWNER_ID "/tmp/tmpk3x/video_1.mp4" (caption_text 1 3) true);
       Failed (DeleteMessage 5) x;
       Did (RmTree "/tmp/tmpk3x")]
  ∧ st_fs run.2 = ∅.
Proof. vm_compute. done. Qed.

(** ** The gate, and the handlers that only answer *)

Lemma owner_check_true update :
  ¬ is_owner update →
  bool_decide (effective_user update = None
               ∨ id <$> effective_user update ≠ Some OWNER_ID) = true.
Proof.
  intros Hno. apply bool_decide_eq_true_2.
  destruct (effective_user update) as [u|] eqn:Hu; [|by left].
  right. intros Heq. apply Hno. unfold is_owner. by rewrite Hu.
Qed.

Lemma owner_check_false update :
  is_owner update →
  bool_decide (effective_user update = None
               ∨ id <$> effective_user update ≠ Some OWNER_ID) = false.
Proof.
  unfold is_owner. intros Hyes. apply bool_decide_eq_false_2.
  intros [Hnone|Hne]; [by rewrite Hnone in Hyes|done].
Qed.

Lemma reply_text_replied_once w text pm s r s' :
  (_ ← reply_text w text pm; mret tt) s = (r, s') →
  replied_once text pm s r s'.
Proof.
  unfold reply_text, mbind, M_bind, mret, M_ret. intros H.
  destruct (telegram_error w (history s) (ReplyText text pm)); simplify_eq.
  - right. eauto.
  - left. eauto.
Qed.

(** X1. [owner_only] lets the decorated function run for the owner and for
    nobody else: for the owner the decorated handler is the function
    itself; for any other sender, or none, the function is not called, and
    all that happens is the unauthorized reply, when there is a message to
    reply to. *)
Theorem owner_only_is_a_gate w (func : Update → M unit) update s :
  (is_owner update → owner_only w func update s = func update s)
  ∧ (¬ is_owner update →
       ∀ r s', owner_only w func update s = (r, s') →
         match message update with
         | Some _ => replied_once unauthorized_text None s r s'
         | None => r = Ret tt ∧ s' = s
         end).
Proof.
  split.
  - intros Hyes. unfold owner_only. by rewrite owner_check_false.
  - intros Hno r s' Hrun. unfold owner_only in Hrun.
    rewrite owner_check_true in Hrun by done.
    destruct (message update).
    + by eapply reply_text_replied_once.
    + by injection Hrun as <- <-.
Qed.

(** X2. [start_handler] and [unknown_message] answer the owner with one
    message each, the welcome text in MarkdownV2 and the hint, and make no
    other call. *)
Theorem text_handlers_reply_once w update msg s :
  is_owner update → message update = Some msg →
  (∀ r s', start_handler w update s = (r, s') →
     replied_once welcome_message (Some "MarkdownV2") s r s')
  ∧ (∀ r s', unknown_message w update s = (r, s') →
       replied_once unknown_text None s r s').
Proof.
  intros Hyes Hmsg. split; intros r s' Hrun.
  - unfold start_handler, owner_only, start_handler_body in Hrun.
    rewrite owner_check_false, Hmsg in Hrun by done.
    by eapply reply_text_replied_once.
  - unfold unknown_message, owner_only, unknown_message_body in Hrun.
    rewrite owner_check_false, Hmsg in Hrun by done.
    by eapply reply_text_replied_once.
Qed.

(** X3. What the handlers read without a test is missed when absent. An
    update of the owner that carries no message makes each of the three
    handlers raise [AttributeError] before any call; so does, in
    [handle_document], a document that has no file name: no warning is
    sent for it. *)
Theorem absent_attribute_raises w update s :
  is_owner update →
  (message update = None →
     start_handler w update s = (Raise (none_has_no "reply_markdown_v2"), s)
     ∧ unknown_message w update s = (Raise (none_has_no "reply_text"), s)
     ∧ handle_document w update s = (Raise (none_has_no "document"), s))
  ∧ (∀ doc, message update = Some {| document := Some doc |} →
       file_name doc = None →
       handle_document w update s = (Raise (none_has_no "lower"), s)).
Proof.
  intros Hyes. split.
  - intros Hmsg.
    unfold start_handler, unknown_message, handle_document, owner_only,
      start_handler_body, unknown_message_body, handle_document_body.
    by rewrite owner_check_false, Hmsg by done.
  - intros doc Hmsg Hname.
    unfold handle_document, owner_only, handle_document_body.
    rewrite owner_check_false, Hmsg by done. simpl. by rewrite Hname.
Qed.

(** ** More on the parsing of the list *)

Example bare_suffix_is_kept : filter_urls [".MPD"; "mpd"] = [".MPD"].
Proof. by vm_compute. Qed.

Lemma ends_in_any_case_length suffix s :
  ends_in_any_case suffix s → String.length suffix ≤ String.length s.
Proof.
  intros H. apply Forall2_length in H.
  rewrite length_drop, !chars_length in H. lia.
Qed.

(** X4. What the filter gives needs no further cleaning: every URL it keeps
    is its own stripped form, with no white space, ASCII or not, as its
    first or last character, ends in .mpd or .m3u8 whatever the case, and
    is at least four characters long, the suffix alone being accepted;
    filtering the result again changes nothing. *)
Theorem filter_urls_idempotent lines :
  Forall (λ url, strip url = url
                 ∧ (∀ ch, head (code_points url) = Some ch → isspace ch = false)
                 ∧ (∀ ch, last (code_points url) = Some ch → isspace ch = false)
                 ∧ manifest_url url ∧ 4 ≤ String.length url)
    (filter_urls lines)
  ∧ filter_urls (filter_urls lines) = filter_urls lines.
Proof.
  assert (Forall (λ url, strip url = url
                 ∧ (∀ ch, head (code_points url) = Some ch → isspace ch = false)
                 ∧ (∀ ch, last (code_points url) = Some ch → isspace ch = false)
                 ∧ manifest_url url ∧ 4 ≤ String.length url)
            (filter_urls lines)) as Hall.
  { rewrite filter_urls_manifest. apply Forall_forall.
    intros url [Hm (line & -> & _)%list_elem_of_fmap]%list_elem_of_filter.
    destruct (strip_points_spec (code_points line)) as (a & b & _ & _ & _ & Hh & Hl).
    split; [apply strip_idempotent|]. rewrite code_points_strip.
    split_and!; [done..|].
    destruct Hm as [H|H]; apply ends_in_any_case_length in H; simpl in H; lia. }
  split; [done|].
  induction Hall as [|url urls (Hs & _ & _ & Hm & _) _ IH]; [done|].
  cbn [filter_urls]. apply endswith_any_manifest_url in Hm.
  by rewrite Hs, Hm, IH.
Qed.

(** X5. The filter works line by line and removes no duplicate: the URLs
    of two lists put end to end are those of the first followed by those of
    the second, and there are never more URLs than lines. *)
Theorem filter_urls_line_by_line lines1 lines2 :
  filter_urls (lines1 ++ lines2) = filter_urls lines1 ++ filter_urls lines2
  ∧ length (filter_urls lines1) ≤ length lines1.
Proof.
  rewrite !filter_urls_spec. split.
  - by rewrite filter_app, fmap_app.
  - rewrite length_fmap. apply length_filter.
Qed.

Lemma readlines_go_crlf s : ∀ cur,
  no_cr s → readlines_go cur (crlf s) = readlines_go cur s.
Proof.
  induction s as [|c s IH]; intros cur Hno; [done|].
  assert (c ≠ "013"%char ∧ no_cr s) as [Hc Hs].
  { unfold no_cr in *. simpl in Hno. by apply not_elem_of_cons in Hno as [? ?]. }
  simpl. destruct (Ascii.eqb c "010") eqn:Hlf.
  - simpl. by rewrite IH.
  - simpl. rewrite Hlf.
    destruct (Ascii.eqb c "013") eqn:Hcr; [by apply Ascii.eqb_eq in Hcr|].
    by apply IH.
Qed.

(** X6. Line endings do not matter: a list saved with carriage return, line
    feed at the end of its lines is read as the same lines, and so gives the
    same URLs, as the list with bare line feeds. *)
Theorem crlf_list_reads_the_same content :
  no_cr content →
  readlines (crlf content) = readlines content
  ∧ filter_urls (readlines (crlf content)) = filter_urls (readlines content).
Proof.
  intros Hno. unfold readlines. by rewrite readlines_go_crlf.
Qed.

(** ** The files of the workspace *)

Lemma string_app_inv_tail s t u : s +:+ u = t +:+ u → s = t.
Proof.
  intros H. apply chars_inj. apply (f_equal chars) in H.
  rewrite !chars_app in H. by apply app_inv_tail in H.
Qed.

(** X7. The items of a batch never share a file: the output paths of two
    different indices differ, each lies in the workspace, and none is the
    path the list was downloaded to. *)
Theorem video_paths_apart tmpdir i j :
  (video_path tmpdir i = video_path tmpdir j → i = j)
  ∧ under tmpdir (video_path tmpdir i) = true
  ∧ video_path tmpdir i ≠ path_join tmpdir "urls.txt".
Proof.
  unfold video_path. split_and!.
  - unfold path_join. intros H.
    do 3 apply String.app_inj in H.
    apply string_app_inv_tail in H. by apply pretty_nat_inj in H.
  - apply under_path_join.
  - unfold path_join. intros H. do 2 apply String.app_inj in H. discriminate H.
Qed.

(** ** The tool is started once for each URL, in order *)

Lemma commands_app new old : commands (new ++ old) = commands old ++ commands new.
Proof.
  induction new as [|e new IH]; simpl; [by rewrite app_nil_r|].
  destruct e as [h text pm|[]|[]]; simpl; rewrite ?IH, ?app_assoc; done.
Qed.

Lemma announced_app new old : announced (new ++ old) = announced old ++ announced new.
Proof.
  induction new as [|e new IH]; simpl; [by rewrite app_nil_r|].
  destruct e as [h text pm|c|c x]; simpl; rewrite ?IH; try done.
  destruct (is_progress_text text); by rewrite ?app_assoc.
Qed.

Section Plan.

Context (w : World) (tmpdir : string) (total : nat).

(** The body of the loop announces its item at most once and starts the
    tool at most once, and does both when it returns. *)
Lemma process_item_plan index url s r s' :
  process_item w tmpdir total index url s = (r, s') →
  ∃ new, st_trace s' = new ++ st_trace s
    ∧ (commands new = [] ∨ commands new = [ffmpeg_cmd url (video_path tmpdir index)])
    ∧ (announced new = [] ∨ announced new = [progress_text index total url])
    ∧ (r = Ret tt →
         commands new = [ffmpeg_cmd url (video_path tmpdir index)]
         ∧ announced new = [progress_text index total url]).
Proof.
  intros Hrun. unfold_item.
  repeat (case_match; simplify_eq/=).
  all: added.
  all: autorewrite with texts; simpl.
  all: split_and!; auto.
  all: intros; done.
Qed.

Lemma process_urls_plan urls : ∀ index s r s',
  process_urls w tmpdir total index urls s = (r, s') →
  ∃ new, st_trace s' = new ++ st_trace s
    ∧ commands new `prefix_of` planned_commands tmpdir index urls
    ∧ announced new `prefix_of` planned_progress total index urls
    ∧ (r = Ret tt →
         commands new = planned_commands tmpdir index urls
         ∧ announced new = planned_progress total index urls).
Proof.
  induction urls as [|url rest IH]; intros index s r s' Hrun.
  - injection Hrun as <- <-. by exists [].
  - rewrite process_urls_cons in Hrun.
    destruct (process_item w tmpdir total index url s) as [[[]|x] s1] eqn:Hitem.
    + apply process_item_plan in Hitem as (new1 & Hs1 & _ & _ & Hret).
      destruct (Hret eq_refl) as [Hc1 Ha1].
      apply IH in Hrun as (new2 & Hs' & Hc2 & Ha2 & Hret2).
      exists (new2 ++ new1). rewrite Hs', Hs1, app_assoc.
      rewrite commands_app, announced_app, Hc1, Ha1. simpl.
      split_and!; [done|by apply prefix_cons..|].
      intros Hr. destruct (Hret2 Hr) as [-> ->]. done.
    + injection Hrun as <- <-.
      apply process_item_plan in Hitem as (new1 & Hs1 & Hc & Ha & _).
      exists new1. simpl. split_and!; [done| | |done].
      * destruct Hc as [-> | ->]; [apply prefix_nil|apply prefix_cons, prefix_nil].
      * destruct Ha as [-> | ->]; [apply prefix_nil|apply prefix_cons, prefix_nil].
Qed.

End Plan.

Lemma batch_plan w tmpdir fid s r s' :
  batch w fid tmpdir s = (r, s') →
  let urls := filter_urls (readlines (document_bytes w fid)) in
  ∃ new, st_trace s' = new ++ st_trace s
    ∧ commands new `prefix_of` planned_commands tmpdir 1 urls
    ∧ announced new `prefix_of` planned_progress (length urls) 1 urls
    ∧ (r = Ret tt →
         commands new = planned_commands tmpdir 1 urls
         ∧ announced new = planned_progress (length urls) 1 urls).
Proof.
  intros Hrun urls. unfold batch, download_to_drive, read_lines, mbind, M_bind in Hrun.
  destruct (telegram_error w (history s) _) eqn:Hd.
  { injection Hrun as <- <-. added. split_and!; [apply prefix_nil..|done]. }
  simpl in Hrun. rewrite lookup_insert_eq in Hrun.
  destruct (decode_error w (document_bytes w fid)) eqn:Hdec.
  { injection Hrun as <- <-. added. split_and!; [apply prefix_nil..|done]. }
  fold urls in Hrun. unfold run_batch, reply_text, mbind, M_bind, mret, M_ret in Hrun.
  destruct urls as [|url rest] eqn:Hurls.
  { repeat (case_match; simplify_eq/=); added; autorewrite with texts;
      split_and!; done. }
  repeat (case_match; simplify_eq/=).
  all: try match goal with
    | H : process_urls _ _ _ _ _ _ = _ |- _ =>
        apply process_urls_plan in H as (new & Hnew & Hc & Ha & Hret);
        simpl in Hnew; try rewrite Hnew
    end.
  all: added_more.
  all: simpl; autorewrite with texts.
  all: rewrite ?commands_app, ?announced_app; simpl; autorewrite with texts; simpl.
  all: split_and!; try done; try apply prefix_nil.
  intros _. destruct a0. by apply Hret.
Qed.

(** X8. [handle_document] starts the tool on the URLs of the filtered list
    and on nothing else, once each and in the order of the list, the item of
    rank [i] writing to video_[i].mp4 of the workspace; the progress messages
    it sends are those of the same URLs in the same order, with the number of
    valid URLs as their total. When the handler returns, every URL of the
    list has had both; when it ends early, an initial part of the list. *)
Theorem tool_runs_follow_the_list w update doc name s r s' new :
  txt_update update doc name →
  handle_document w update s = (r, s') →
  st_trace s' = new ++ st_trace s →
  let urls := filter_urls (readlines (document_bytes w (file_id doc))) in
  ∃ dir,
    (Did (Mkdtemp dir) ∈ new ∨ commands new = [] ∧ announced new = [])
    ∧ commands new `prefix_of` planned_commands dir 1 urls
    ∧ announced new `prefix_of` planned_progress (length urls) 1 urls
    ∧ (r = Ret tt →
         commands new = planned_commands dir 1 urls
         ∧ announced new = planned_progress (length urls) 1 urls).
Proof.
  intros Htxt Hrun Hnew urls.
  rewrite (handle_document_accepts _ _ _ _ _ Htxt) in Hrun.
  unfold mbind, M_bind, telegram in Hrun.
  destruct (telegram_error w (history s) (GetFile (file_id doc))) eqn:Hg.
  { injection Hrun as <- <-. simpl in Hnew.
    assert (new = [Failed (GetFile (file_id doc)) (Exn TelegramError s0)]) as ->.
    { apply (app_inv_tail (st_trace s)). by rewrite <- Hnew. }
    exists EmptyString. split_and!; [by right|apply prefix_nil..|done]. }
  apply with_TemporaryDirectory_inv in Hrun
    as [(dir & -> & ->)|(dir & s2 & Hfree & Hbody & ->)].
  { simpl in Hnew.
    assert (new = [Failed (Mkdtemp dir) file_exists_error;
                   Did (GetFile (file_id doc))]) as ->.
    { apply (app_inv_tail (st_trace s)). by rewrite <- Hnew. }
    exists dir. split_and!; [by right|apply prefix_nil..|done]. }
  apply batch_plan in Hbody as (newb & Hs2 & Hc & Ha & Hret). simpl in *.
  assert (new = Did (RmTree dir) :: newb
                ++ [Did (Mkdtemp dir); Did (GetFile (file_id doc))]) as ->.
  { apply (app_inv_tail (st_trace s)). rewrite <- Hnew, Hs2. simpl.
    by rewrite <- app_assoc. }
  exists dir. simpl. rewrite commands_app, announced_app. simpl.
  split_and!; [|done..].
  left. apply list_elem_of_further, elem_of_app. right. apply list_elem_of_here.
Qed.

(** ** The order of the calls made for an item *)

Lemma well_placed_app e older extra :
  well_placed e older → well_placed e (older ++ extra).
Proof.
  destruct e as [h text pm|[]|[]]; simpl; try done.
  all: try (intros (url & path & h' & index & total & rest & -> & ->);
            by eexists _, _, _, _, _, _).
  all: try (intros (url & rest & ->); by eexists _, _).
  all: try (intros [-> (url & rest & ->)]; split; [done|]; by eexists _, _).
  all: intros (text & Ht & Hin); exists text; split; [done|];
    apply elem_of_app; by left.
Qed.

Lemma orderly_app new2 new1 : orderly new2 → orderly new1 → orderly (new2 ++ new1).
Proof.
  intros H2 H1. induction new2 as [|e new2 IH]; [done|].
  destruct H2 as [He H2]. split; [by apply well_placed_app|by apply IH].
Qed.

Lemma orderly_at new : ∀ post e older,
  orderly new → new = post ++ e :: older → well_placed e older.
Proof.
  induction new as [|e' new IH]; intros post e older Hord Heq.
  - by destruct post.
  - destruct Hord as [He Hord]. destruct post as [|e'' post]; simplify_eq/=; [done|].
    by eapply IH.
Qed.

Lemma idle_orderly new : Forall (λ e, idle_event e = true) new → orderly new.
Proof.
  induction 1 as [|e new He _ IH]; [done|]. split; [|done].
  by destruct e as [h text pm|[]|[]].
Qed.

Ltac placed :=
  repeat match goal with
    | |- True => exact I
    | |- _ ∧ _ => split
    | |- _ = _ => reflexivity
    | |- ∃ url path h index total rest, _ => by eexists _, _, _, _, _, _
    | |- ∃ url rest, _ = _ => by eexists _, _
    | |- ∃ text, is_progress_text text = true ∧ _ =>
        eexists; split; [apply progress_of_progress|];
        repeat first [apply list_elem_of_here | apply list_elem_of_further]
    end.

Lemma process_item_orderly w tmpdir total index url s r s' :
  process_item w tmpdir total index url s = (r, s') →
  ∃ new, st_trace s' = new ++ st_trace s ∧ orderly new.
Proof.
  intros Hrun. unfold_item.
  repeat (case_match; simplify_eq/=).
  all: added; simpl; placed.
Qed.

Lemma process_urls_orderly w tmpdir total urls : ∀ index s r s',
  process_urls w tmpdir total index urls s = (r, s') →
  ∃ new, st_trace s' = new ++ st_trace s ∧ orderly new.
Proof.
  induction urls as [|url rest IH]; intros index s r s' Hrun.
  - injection Hrun as <- <-. by exists [].
  - rewrite process_urls_cons in Hrun.
    destruct (process_item w tmpdir total index url s) as [[[]|x] s1] eqn:Hitem.
    + apply process_item_orderly in Hitem as (new1 & Hs1 & H1).
      apply IH in Hrun as (new2 & Hs' & H2).
      exists (new2 ++ new1). rewrite Hs', Hs1, app_assoc.
      split; [done|by apply orderly_app].
    + injection Hrun as <- <-. by apply process_item_orderly in Hitem.
Qed.

Lemma batch_orderly w fid dir s r s' :
  batch w fid dir s = (r, s') →
  ∃ new, st_trace s' = new ++ st_trace s ∧ orderly new.
Proof.
  intros Hrun. unfold_batch.
  repeat (case_match; simplify_eq/=).
  all: try match goal with
    | H : process_urls _ _ _ _ _ _ = _ |- _ =>
        apply process_urls_orderly in H as (new & Hnew & Hord);
        simpl in Hnew; try rewrite Hnew
    end.
  all: added_more.
  all: simpl; repeat split; try done.
  all: by apply orderly_app.
Qed.

Lemma handle_document_orderly w update s r s' :
  handle_document w update s = (r, s') →
  ∃ new, st_trace s' = new ++ st_trace s ∧ orderly new.
Proof.
  intros Hrun.
  apply handle_document_inv in Hrun as [(_ & _ & new & Hnew & Hidle)|Hwith].
  - exists new. split; [done|by apply idle_orderly].
  - destruct Hwith as (doc & name & _ & Hwith).
    apply with_TemporaryDirectory_inv in Hwith
      as [(dir & -> & ->)|(dir & s2 & Hfree & Hbody & ->)].
    + added. done.
    + apply batch_orderly in Hbody as (newb & Hs2 & Hord). simpl in *.
      rewrite Hs2. added_more. simpl. split; [done|]. by apply orderly_app.
Qed.

Lemma handle_document_well_placed w update s r s' post e older :
  handle_document w update s = (r, s') →
  st_trace s' = (post ++ e :: older) ++ st_trace s →
  well_placed e older.
Proof.
  intros Hrun Hnew.
  apply handle_document_orderly in Hrun as (new & Hnew' & Hord).
  rewrite Hnew' in Hnew. apply app_inv_tail in Hnew. by eapply orderly_at.
Qed.

(** X9. A video is sent, or tried, only for a file the tool has just
    produced: the call that comes right before is the opening of that file,
    and the one before it the tool returning with status 0 on the command
    line that writes to it. The video goes to the owner. *)
Theorem video_sent_only_after_transcode w update s r s' post e older
    chat path caption streaming :
  handle_document w update s = (r, s') →
  st_trace s' = (post ++ e :: older) ++ st_trace s →
  call_of e = SendVideo chat path caption streaming →
  chat = OWNER_ID
  ∧ ∃ url rest,
      older = Did (OpenRb path) :: Did (SubprocessRun (ffmpeg_cmd url path)) :: rest.
Proof.
  intros Hrun Hnew He.
  pose proof (handle_document_well_placed _ _ _ _ _ _ _ _ Hrun Hnew) as Hp.
  destruct e as [h text pm|[]|[]]; simplify_eq/=; done.
Qed.

(** X10. The tool is started only on a command line of [ffmpeg_cmd], and
    only right after the progress message for its URL and the chat
    action: whoever watches the chat sees what is being downloaded before
    the download starts. *)
Theorem tool_started_only_after_progress w update s r s' post e older cmd :
  handle_document w update s = (r, s') →
  st_trace s' = (post ++ e :: older) ++ st_trace s →
  call_of e = SubprocessRun cmd →
  ∃ url path h index total rest,
    cmd = ffmpeg_cmd url path
    ∧ older = Did (SendChatAction OWNER_ID UPLOAD_VIDEO)
              :: Sent h (progress_text index total url) None :: rest.
Proof.
  intros Hrun Hnew He.
  pose proof (handle_document_well_placed _ _ _ _ _ _ _ _ Hrun Hnew) as Hp.
  destruct e as [h text pm|[]|[]]; simplify_eq/=; done.
Qed.

(** X11. The handler deletes nothing but its own progress messages: every
    deletion, done or tried, is of a message sent earlier in the same run
    with a progress text. *)
Theorem only_progress_messages_deleted w update s r s' post e older h :
  handle_document w update s = (r, s') →
  st_trace s' = (post ++ e :: older) ++ st_trace s →
  call_of e = DeleteMessage h →
  ∃ text, is_progress_text text = true ∧ Sent h text None ∈ older.
Proof.
  intros Hrun Hnew He.
  pose proof (handle_document_well_placed _ _ _ _ _ _ _ _ Hrun Hnew) as Hp.
  destruct e as [h' text pm|[]|[]]; simplify_eq/=; done.
Qed.

(** ** A run in which everything answers *)

(** X12. When the chat, the file service and the decoder answer, the
    workspace name is free and the tool starts on every command line without
    a NUL character, [handle_document] returns normally on every .txt list
    of the owner whose URLs hold no NUL character, whatever the tool's exit
    status and the fate of the uploads: it records one outcome for each URL
    of the filtered list, in order, and sends one completion notice, or
    none when the list has no valid URL. *)
Theorem dependable_run_returns w update doc name s :
  txt_update update doc name →
  dependable w (file_id doc) s →
  let urls := filter_urls (readlines (document_bytes w (file_id doc))) in
  Forall no_nul urls →
  ∃ s' outcomes,
    handle_document w update s = (Ret tt, s')
    ∧ length outcomes = length urls
    ∧ results (st_trace s') = results (st_trace s) ++ zip urls outcomes
    ∧ completions (st_trace s')
      = (completions (st_trace s) + if urls is [] then 0 else 1)%nat.
Proof.
  intros Htxt (Ht & Hl & Hget & Hdown & Hdec & Hfree & Hdir) urls Hplain.
  rewrite (handle_document_accepts _ _ _ _ _ Htxt).
  unfold mbind at 1, M_bind at 1, telegram. rewrite Hget.
  unfold with_TemporaryDirectory. simpl. rewrite Hfree.
  unfold batch, download_to_drive, read_lines, mbind, M_bind. simpl.
  rewrite Hdown. simpl. rewrite lookup_insert_eq, Hdec. fold urls.
  destruct urls as [|url rest] eqn:Hurls.
  - unfold run_batch, mbind, M_bind. rewrite reply_text_ok by done.
    eexists _, []. split; [reflexivity|]. simpl. autorewrite with texts.
    rewrite !app_nil_r. split_and!; [done..|lia].
  - unfold run_batch, mbind, M_bind. rewrite reply_text_ok by done.
    match goal with
    | |- context [process_urls w ?dir ?total ?index ?list ?st] =>
        destruct (process_urls_settles w dir total Ht Hl (Hdir _) list index st Hplain)
          as (s1 & os & Hloop & Hlen & Hres & Hc)
    end.
    simpl in *. rewrite Hloop. rewrite reply_text_ok by done.
    eexists _, os. split; [reflexivity|]. simpl. autorewrite with texts.
    rewrite Hres, Hc. simpl. autorewrite with texts.
    rewrite !app_nil_r. split_and!; [done..|lia].
Qed.

(** ** Files outside the workspace *)

Lemma rmtree_lookup_outside dir (fs : gmap string node) p :
  p ≠ dir → under dir p = false → rmtree dir fs !! p = fs !! p.
Proof.
  intros Hne Hout. unfold rmtree.
  destruct (fs !! p) as [v|] eqn:Hp.
  - by apply map_lookup_filter_Some.
  - apply map_lookup_filter_None. by left.
Qed.

(** X13. The handler leaves the rest of the disk alone: a path that is
    neither a workspace directory of the run nor under one holds after the
    run what it held before, however the run ends. *)
Theorem files_outside_workspace_untouched w update s r s' new p :
  handle_document w update s = (r, s') →
  st_trace s' = new ++ st_trace s →
  (∀ dir, Did (Mkdtemp dir) ∈ new → p ≠ dir ∧ under dir p = false) →
  st_fs s' !! p = st_fs s !! p.
Proof.
  intros Hrun Hnew Hout.
  apply handle_document_inv in Hrun as [(Hfs & _)|Hwith]; [by rewrite Hfs|].
  destruct Hwith as (doc & name & _ & Hwith).
  apply with_TemporaryDirectory_inv in Hwith
    as [(dir & -> & ->)|(dir & s2 & Hfree & Hbody & ->)]; [done|].
  apply batch_frame in Hbody as (newb & Hs2 & _ & Hsame). simpl in *.
  assert (new = Did (RmTree dir) :: newb
                ++ [Did (Mkdtemp dir); Did (GetFile (file_id doc))]) as ->.
  { apply (app_inv_tail (st_trace s)). rewrite <- Hnew, Hs2. simpl.
    by rewrite <- app_assoc. }
  destruct (Hout dir) as [Hne Hunder].
  { apply list_elem_of_further, elem_of_app. right. apply list_elem_of_here. }
  rewrite rmtree_lookup_outside, Hsame by done. by rewrite lookup_insert_ne.
Qed.

(** ** The further theorems at work on sample runs *)

Lemma owner_update_is_owner name : is_owner (owner_update name).
Proof. reflexivity. Defined.

Lemma sample_dependable list : dependable (sample_world list) "F1" initial.
Proof.
  split_and!.
  - apply sample_transport_ok.
  - apply sample_tool_launches.
  - reflexivity.
  - reflexivity.
  - reflexivity.
  - intros past. apply lookup_empty.
  - intros past. apply (bool_decide_unpack _). by vm_compute.
Defined.

Lemma owner_only_is_a_gate_witness :
  let run := handle_document (sample_world sample_list) stranger_update initial in
  replied_once unauthorized_text None initial run.1 run.2.
Proof.
  intros run.
  apply (proj2 (owner_only_is_a_gate (sample_world sample_list)
                  (handle_document_body (sample_world sample_list))
                  stranger_update initial)).
  - intros H. discriminate H.
  - subst run. apply surjective_pairing.
Defined.

Lemma text_handlers_reply_once_witness :
  let run := start_handler (sample_world sample_list) (owner_update "list.txt") initial in
  replied_once welcome_message (Some "MarkdownV2") initial run.1 run.2.
Proof.
  intros run.
  apply (proj1 (text_handlers_reply_once (sample_world sample_list)
                  (owner_update "list.txt") _ initial
                  (owner_update_is_owner "list.txt") eq_refl)).
  subst run. by destruct (start_handler _ _ _).
Defined.

Lemma absent_attribute_raises_witness :
  handle_document (sample_world sample_list) bare_update initial
  = (Raise (none_has_no "document"), initial).
Proof.
  apply (proj1 (absent_attribute_raises (sample_world sample_list) bare_update initial
                  eq_refl)).
  reflexivity.
Defined.

Lemma crlf_list_reads_the_same_witness :
  readlines (crlf sample_list) = readlines sample_list
  ∧ filter_urls (readlines (crlf sample_list)) = filter_urls (readlines sample_list).
Proof.
  apply (crlf_list_reads_the_same sample_list).
  apply (bool_decide_unpack _). vm_compute. exact I.
Defined.

Lemma video_paths_apart_witness : 2%nat = 2%nat.
Proof.
  apply (proj1 (video_paths_apart "/tmp/tmpk3x" 2 2)). reflexivity.
Defined.

Lemma tool_runs_follow_the_list_witness :
  let run := handle_document (sample_world sample_list) (owner_update "list.TXT") initial in
  let urls := ["a.mpd"; "b.M3U8"; "bad.mpd"] in
  ∃ dir,
    (Did (Mkdtemp dir) ∈ st_trace run.2
     ∨ commands (st_trace run.2) = [] ∧ announced (st_trace run.2) = [])
    ∧ commands (st_trace run.2) `prefix_of` planned_commands dir 1 urls
    ∧ announced (st_trace run.2) `prefix_of` planned_progress 3 1 urls
    ∧ (run.1 = Ret tt →
         commands (st_trace run.2) = planned_commands dir 1 urls
         ∧ announced (st_trace run.2) = planned_progress 3 1 urls).
Proof.
  intros run urls.
  apply (tool_runs_follow_the_list (sample_world sample_list) (owner_update "list.TXT")
           {| file_id := "F1"; file_name := Some "list.TXT" |} "list.TXT"
           initial run.1 run.2 (st_trace run.2)).
  - apply owner_update_txt.
  - subst run. by destruct (handle_document _ _ _).
  - simpl. by rewrite app_nil_r.
Defined.

Lemma video_sent_only_after_transcode_witness :
  let run := handle_document (sample_world sample_list) (owner_update "list.TXT") initial in
  let path := video_path "/tmp/tmpk3x" 1 in
  OWNER_ID = OWNER_ID
  ∧ ∃ url rest,
      drop 15 (st_trace run.2)
      = Did (OpenRb path) :: Did (SubprocessRun (ffmpeg_cmd url path)) :: rest.
Proof.
  intros run path.
  apply (video_sent_only_after_transcode (sample_world sample_list)
           (owner_update "list.TXT") initial run.1 run.2
           (take 14 (st_trace run.2))
           (Did (SendVideo OWNER_ID path (caption_text 1 3) true))
           (drop 15 (st_trace run.2))
           OWNER_ID path (caption_text 1 3) true).
  - subst run. by destruct (handle_document _ _ _).
  - vm_compute. reflexivity.
  - reflexivity.
Defined.

Lemma tool_started_only_after_progress_witness :
  let run := handle_document (sample_world sample_list) (owner_update "list.TXT") initial in
  ∃ url path h index total rest,
    ffmpeg_cmd "a.mpd" (video_path "/tmp/tmpk3x" 1) = ffmpeg_cmd url path
    ∧ drop 17 (st_trace run.2)
      = Did (SendChatAction OWNER_ID UPLOAD_VIDEO)
        :: Sent h (progress_text index total url) None :: rest.
Proof.
  intros run.
  apply (tool_started_only_after_progress (sample_world sample_list)
           (owner_update "list.TXT") initial run.1 run.2
           (take 16 (st_trace run.2))
           (Did (SubprocessRun (ffmpeg_cmd "a.mpd" (video_path "/tmp/tmpk3x" 1))))
           (drop 17 (st_trace run.2))).
  - subst run. by destruct (handle_document _ _ _).
  - vm_compute. reflexivity.
  - reflexivity.
Defined.

Lemma only_progress_messages_deleted_witness :
  let run := handle_document (sample_world sample_list) (owner_update "list.TXT") initial in
  ∃ text, is_progress_text text = true
    ∧ Sent 5 text None ∈ drop 14 (st_trace run.2).
Proof.
  intros run.
  apply (only_progress_messages_deleted (sample_world sample_list)
           (owner_update "list.TXT") initial run.1 run.2
           (take 13 (st_trace run.2))
           (Did (DeleteMessage 5))
           (drop 14 (st_trace run.2)) 5).
  - subst run. by destruct (handle_document _ _ _).
  - vm_compute. reflexivity.
  - reflexivity.
Defined.

Lemma dependable_run_returns_witness :
  let urls := filter_urls (readlines (document_bytes (sample_world sample_list) "F1")) in
  ∃ s' outcomes,
    handle_document (sample_world sample_list) (owner_update "list.TXT") initial = (Ret tt, s')
    ∧ length outcomes = length urls
    ∧ results (st_trace s') = results (st_trace initial) ++ zip urls outcomes
    ∧ completions (st_trace s')
      = (completions (st_trace initial) + if urls is [] then 0 else 1)%nat.
Proof.
  apply (dependable_run_returns (sample_world sample_list) (owner_update "list.TXT")
           {| file_id := "F1"; file_name := Some "list.TXT" |} "list.TXT" initial).
  - apply owner_update_txt.
  - apply sample_dependable.
  - apply (bool_decide_unpack _). by vm_compute.
Defined.

Lemma files_outside_workspace_untouched_witness :
  let run := handle_document (world_message_gone sample_list) (owner_update "list.TXT") initial in
  st_fs run.2 !! "/home/owner/notes.txt" = st_fs initial !! "/home/owner/notes.txt".
Proof.
  intros run.
  apply (files_outside_workspace_untouched (world_message_gone sample_list)
           (owner_update "list.TXT") initial run.1 run.2 (st_trace run.2)).
  - subst run. by destruct (handle_document _ _ _).
  - simpl. by rewrite app_nil_r.
  - intros dir Hin. vm_compute in Hin.
    repeat (apply elem_of_cons in Hin as [Hin|Hin]; [try discriminate Hin|]).
    + injection Hin as ->. split; [discriminate|reflexivity].
    + by apply elem_of_nil in Hin.
Defined.
